(** * The event-stream client of the Sapliy CLI

    A shallow embedding of the two streaming commands of the CLI,
    [debug listen] (debugListenCmd) and [connect] (connectCmd): the reader
    loop each of them runs in a goroutine, the filter and the two renderings
    of [debug listen], and the control task that waits for an interrupt or for
    the reader and then closes the connection.

    Go strings are byte strings ([string]); a [map[string]interface{}] is a
    [gmap string value]; durations and clock readings are nanoseconds in [N],
    as in Go's [time.Duration].  The two goroutines and the environment
    (socket, signals, clock, scheduler) are a state machine driven by a list of
    stimuli, one interleaving per list.  The connection is gorilla's
    [websocket.Conn] with its default handlers, which answer the peer's pings
    and close frames from inside [ReadMessage]. *)

From stdpp Require Import gmap strings list.
From Stdlib Require Import NArith ZArith Ascii Lia.

#[local] Set Warnings "-register-all".

(** ** Strings: the functions of Go's [strings], [unicode/utf8] and [fmt]
       that the commands call *)

Module Strings.

(** The line feed, which Go writes as the escape [\n]. *)
Definition LF : string := String "010"%char EmptyString.

(** [strings.Contains(s, substr)]: [substr] occurs in [s] at some offset. *)
Fixpoint Contains (s substr : string) : bool :=
  if String.prefix substr s then true
  else match s with
       | EmptyString => false
       | String _ rest => Contains rest substr
       end.

(** [strings.Repeat(s, count)]. *)
Fixpoint Repeat (s : string) (count : nat) : string :=
  match count with
  | O => EmptyString
  | S n => s +:+ Repeat s n
  end.

(** Drop the first [n] bytes: the slice [s[n:]]. *)
Fixpoint from (n : nat) (s : string) : string :=
  match n, s with
  | S k, String _ rest => from k rest
  | _, _ => s
  end.

(** [strings.Replace(s, old, new, 1)]: the first occurrence only. *)
Fixpoint ReplaceFirst (s old new : string) : string :=
  if String.prefix old s then new +:+ from (String.length old) s
  else match s with
       | EmptyString => EmptyString
       | String c rest => String c (ReplaceFirst rest old new)
       end.

(** A continuation byte of UTF-8 has the bits [10xxxxxx]. *)
Definition continuation (c : ascii) : bool :=
  match c with
  | Ascii _ _ _ _ _ _ false true => true
  | _ => false
  end.

(** [utf8.RuneCountInString] on well-formed UTF-8 (which is what
    [encoding/json] hands out for every decoded string): one rune for each
    byte that is not a continuation byte. *)
Fixpoint RuneCountInString (s : string) : nat :=
  match s with
  | EmptyString => 0
  | String c rest =>
      (if continuation c then 0 else 1) + RuneCountInString rest
  end.

(** The verb [%-Ns] of [fmt]: the operand, then blanks up to [width] runes;
    an operand of [width] runes or more is written whole. *)
Definition left_justified (width : nat) (s : string) : string :=
  s +:+ Repeat " " (width - RuneCountInString s).

End Strings.

(** ** More of Go's [strings]: slices, white space, lower case *)

Module Str.

(** The slice [s[:n]], for [n] up to the length of [s]. *)
Fixpoint upto (n : nat) (s : string) : string :=
  match n, s with
  | S k, String c rest => String c (upto k rest)
  | _, _ => EmptyString
  end.

(** [strings.HasPrefix(s, prefix)]. *)
Definition HasPrefix (s prefix : string) : bool := String.prefix prefix s.

(** The bytes that [unicode.IsSpace] accepts below [utf8.RuneSelf]: tab, line
    feed, vertical tab, form feed, carriage return and blank. *)
Definition ascii_space (c : ascii) : bool :=
  match N_of_ascii c with
  | 9 | 10 | 11 | 12 | 13 | 32 => true
  | _ => false
  end%N.

Definition byte_is (c : ascii) (n : N) : bool := (N_of_ascii c =? n)%N.

(** The two-byte encodings of white space: U+0085 (C2 85) and U+00A0
    (C2 A0). *)
Definition space2 (c1 c2 : ascii) : bool :=
  byte_is c1 194 && (byte_is c2 133 || byte_is c2 160).

(** The three-byte encodings of white space: U+1680 (E1 9A 80), U+2000 to
    U+200A (E2 80 80 to E2 80 8A), U+2028, U+2029 and U+202F (E2 80 A8, A9,
    AF), U+205F (E2 81 9F) and U+3000 (E3 80 80). *)
Definition space3 (c1 c2 c3 : ascii) : bool :=
  (byte_is c1 225 && byte_is c2 154 && byte_is c3 128)
  || (byte_is c1 226 && byte_is c2 128
      && (((128 <=? N_of_ascii c3)%N && (N_of_ascii c3 <=? 138)%N)
          || byte_is c3 168 || byte_is c3 169 || byte_is c3 175))
  || (byte_is c1 226 && byte_is c2 129 && byte_is c3 159)
  || (byte_is c1 227 && byte_is c2 128 && byte_is c3 128).

(** The number of bytes of the white-space rune that the bytes begin with;
    0 when they begin with none. *)
Definition space_first (l : list ascii) : nat :=
  match l with
  | c1 :: rest =>
      if ascii_space c1 then 1
      else match rest with
           | c2 :: rest2 =>
               if space2 c1 c2 then 2
               else match rest2 with
                    | c3 :: _ => if space3 c1 c2 c3 then 3 else 0
                    | [] => 0
                    end
           | [] => 0
           end
  | [] => 0
  end.

(** The same for the rune that the bytes end with, on the bytes in reverse. *)
Definition space_last (reversed : list ascii) : nat :=
  match reversed with
  | c3 :: rest =>
      if ascii_space c3 then 1
      else match rest with
           | c2 :: rest2 =>
               if space2 c2 c3 then 2
               else match rest2 with
                    | c1 :: _ => if space3 c1 c2 c3 then 3 else 0
                    | [] => 0
                    end
           | [] => 0
           end
  | [] => 0
  end.

(** Drop runes from the front for as long as [width] finds one. *)
Fixpoint strip (width : list ascii -> nat) (fuel : nat) (l : list ascii)
  : list ascii :=
  match fuel with
  | O => l
  | S fuel' =>
      match width l with
      | O => l
      | w => strip width fuel' (drop w l)
      end
  end.

Definition trim_left (l : list ascii) : list ascii :=
  strip space_first (length l) l.

Definition trim_right (l : list ascii) : list ascii :=
  rev (strip space_last (length l) (rev l)).

(** [strings.TrimSpace(s)]: [s] without the white-space runes it begins and
    ends with. *)
Definition TrimSpace (s : string) : string :=
  String.string_of_list_ascii
    (trim_right (trim_left (String.list_ascii_of_string s))).

(** [strings.SplitN(s, " ", 2)]: the bytes before the first blank, and the
    bytes after it when there is one. *)
Fixpoint SplitBlank (s : string) : string * option string :=
  match s with
  | EmptyString => (EmptyString, None)
  | String c rest =>
      if Ascii.eqb c " " then (EmptyString, Some rest)
      else let '(head, tail) := SplitBlank rest in (String c head, tail)
  end.

(** All bytes are below [utf8.RuneSelf]. *)
Fixpoint isASCII (s : string) : bool :=
  match s with
  | EmptyString => true
  | String c rest => (N_of_ascii c <? 128)%N && isASCII rest
  end.

Definition lower_byte (c : ascii) : ascii :=
  if ((65 <=? N_of_ascii c) && (N_of_ascii c <=? 90))%N
  then ascii_of_N (N_of_ascii c + 32)
  else c.

Fixpoint lower_bytes (s : string) : string :=
  match s with
  | EmptyString => EmptyString
  | String c rest => String (lower_byte c) (lower_bytes rest)
  end.

(** [strings.ToLower(s)]: byte by byte when [s] is ASCII; otherwise
    [strings.Map(unicode.ToLower, s)], which is [mapped]. *)
Definition ToLower (mapped : string -> string) (s : string) : string :=
  if isASCII s then lower_bytes s else mapped s.

End Str.

(** ** Time: [time.Second], and [time.Now().Format("15:04:05")] *)

Module Time.

(** [time.Second], in nanoseconds. *)
Definition Second : N := 1000000000.

Definition digit (n : N) : ascii := ascii_of_N (48 + n mod 10).

Definition two_digits (n : N) : string :=
  String (digit (n / 10)) (String (digit n) EmptyString).

(** The layout [15:04:05]: hour of the day, minute and second, two digits
    each.  The clock counts nanoseconds from a local midnight. *)
Definition Format (t : N) : string :=
  let secs := (t / Second)%N in
  two_digits ((secs / 3600) mod 24) +:+ ":" +:+
  two_digits ((secs / 60) mod 60) +:+ ":" +:+
  two_digits (secs mod 60).

End Time.

(** ** Data *)

(** What [encoding/json] stores in an [interface{}]: nil for null, a bool, a
    float64 (kept as the numeric literal), a string, a slice, or a
    [map[string]interface{}]. *)
Inductive value : Type :=
| VNil
| VBool (b : bool)
| VNumber (lit : string)
| VString (s : string)
| VSlice (items : list value)
| VMap (fields : gmap string value).

(** The variable [event] of the reader: a [map[string]interface{}], which may
    be the nil map. *)
Inductive event : Type :=
| NilMap
| Map (fields : gmap string value).

(** An inbound frame: its bytes, and the value [encoding/json] reads from
    them ([None] when the bytes are not a JSON text). *)
Record message := Message {
  bytes : string;
  json : option value;
}.

(** A Go [error]: [Code] is the close code when the error is a
    [*websocket.CloseError], [Net] says whether it is a [net.Error], and
    [Error] is the text of [err.Error()]. *)
Record error := Err {
  Code : option Z;
  Net : bool;
  Error : string;
}.

#[global] Instance error_eq_dec : EqDecision error.
Proof. solve_decision. Defined.

Definition CloseNormalClosure : Z := 1000.
Definition CloseGoingAway : Z := 1001.
Definition CloseProtocolError : Z := 1002.
Definition CloseNoStatusReceived : Z := 1005.
Definition CloseAbnormalClosure : Z := 1006.

(** gorilla's [ErrCloseSent], which a write returns once a close frame has
    been written. *)
Definition ErrCloseSent : error := Err None false "websocket: close sent".

(** The error of a write to a connection that has been closed; its text
    names the two addresses and is never printed. *)
Definition ErrClosed : error := Err None true "use of closed network connection".

(** [websocket.IsUnexpectedCloseError(err, expectedCodes...)]: a close error
    whose code is none of the expected ones. *)
Definition IsUnexpectedCloseError (err : error) (expectedCodes : list Z) : bool :=
  match Code err with
  | Some c => negb (existsb (Z.eqb c) expectedCodes)
  | None => false
  end.

(** A piece of printed text: literal bytes, the bytes that
    [json.MarshalIndent(event, "", "  ")] yields for an event, or the date and
    time that the standard logger of [log] puts before a line. *)
Inductive chunk : Type :=
| Text (s : string)
| Indented (ev : event)
| LogPrefix.

(** What the process prints, tagged with the statement that printed it: a
    rendered event (the reader's line for a received message), the report of
    a receive error, the report of a send error, the report of a failed start,
    or a notice of the control task. *)
Inductive output : Type :=
| Rendered (text : list chunk)
| ReadError (text : list chunk)
| WriteError (text : list chunk)
| StartError (text : list chunk)
| Notice (text : list chunk).

(** A frame written to the connection: a text message, a close frame with a
    code and a text, a close frame without payload, or a pong. *)
Inductive outbound : Type :=
| TextMessage (payload : string)
| CloseMessage (code : Z) (text : string)
| CloseEmpty
| PongMessage (appData : string).

(** [websocket.FormatCloseMessage(closeCode, text)], as the payload of a close
    frame: none for the code 1005, which may not be sent. *)
Definition FormatCloseMessage (closeCode : Z) (text : string) : outbound :=
  if (closeCode =? CloseNoStatusReceived)%Z then CloseEmpty
  else CloseMessage closeCode text.

(** The two commands, with the flags the reader of [debug listen] consults. *)
Inductive command : Type :=
| Listen (verbose : bool) (filterType : string)
| Connect.

(** ** Decoding, filtering and rendering (debugListenCmd, lines 88-114) *)

(** [json.Unmarshal(message, &event)] with [event] a nil
    [map[string]interface{}]: an object fills the map, null leaves it nil, and
    anything else (bytes that are not JSON, or a JSON text of another kind) is
    an error. *)
Definition Unmarshal (m : message) : option event :=
  match json m with
  | Some (VMap fields) => Some (Map fields)
  | Some VNil => Some NilMap
  | _ => None
  end.

(** [event[key]]: the nil interface for a missing key or a nil map. *)
Definition index (ev : event) (key : string) : value :=
  match ev with
  | NilMap => VNil
  | Map fields => default VNil (fields !! key)
  end.

(** The type assertion [v.(string)]. *)
Definition as_string (v : value) : option string :=
  match v with
  | VString s => Some s
  | _ => None
  end.

(** The type assertion [v.(map[string]interface{})]. *)
Definition as_map (v : value) : option (gmap string value) :=
  match v with
  | VMap fields => Some fields
  | _ => None
  end.

(** Line 93: [eventType, _ := event["type"].(string)]. *)
Definition eventType (ev : event) : string :=
  default EmptyString (as_string (index ev "type")).

(** Line 96, negated: the event is kept. *)
Definition passes (filterType eventType : string) : bool :=
  negb (negb (String.eqb filterType EmptyString)
        && negb (Strings.Contains eventType filterType)).

(** Lines 107-112: the identifier of the compact line. *)
Definition compact_id (ev : event) : string :=
  match as_map (index ev "data") with
  | Some data =>
      match as_string (default VNil (data !! "id")) with
      | Some val => val
      | None => EmptyString
      end
  | None => EmptyString
  end.

(** Lines 100-114: the text printed for an event that passed the filter. *)
Definition render (verbose : bool) (now : N) (ev : event) : list chunk :=
  let timestamp := Time.Format now in
  if verbose then
    [Text ("[" +:+ timestamp +:+ "] " +:+ eventType ev +:+ Strings.LF);
     Indented ev;
     Text (Strings.LF +:+ Strings.LF)]
  else
    [Text ("[" +:+ timestamp +:+ "] " +:+
           Strings.left_justified 30 (eventType ev) +:+ "  " +:+
           compact_id ev +:+ Strings.LF)].

(** ** The reader goroutines *)

(** What [conn.ReadMessage()] returns. *)
Inductive received : Type :=
| Frame (m : message)
| Failure (err : error).

(** One turn of the reader's [for] loop: what it prints, and whether the loop
    goes on to the next receive.
    [Listen]: debugListenCmd, lines 79-114.  [Connect]: connectCmd, lines
    116-121. *)
Definition reader_turn (cmd : command) (now : N) (r : received)
  : list output * bool :=
  match cmd with
  | Listen verbose filterType =>
      match r with
      | Failure err =>
          (if IsUnexpectedCloseError err [CloseGoingAway; CloseNormalClosure]
           then [ReadError [Text ("❌ connection error: " +:+ Error err +:+ Strings.LF)]]
           else [],
           false)
      | Frame m =>
          match Unmarshal m with
          | None => ([], true)
          | Some ev =>
              if passes filterType (eventType ev)
              then ([Rendered (render verbose now ev)], true)
              else ([], true)
          end
      end
  | Connect =>
      match r with
      | Failure err =>
          ([ReadError [LogPrefix; Text ("read-error: " +:+ Error err +:+ Strings.LF)]],
           false)
      | Frame m =>
          ([Rendered [Text ("< " +:+ bytes m +:+ Strings.LF)]], true)
      end
  end.

(** The reader's loop over what the receives return, each with the clock
    reading of its turn; it ends at the first failure, and blocks when nothing
    more arrives. *)
Fixpoint reader (cmd : command) (inbox : list (N * received)) : list output :=
  match inbox with
  | [] => []
  | (now, r) :: rest =>
      let '(printed, continue) := reader_turn cmd now r in
      printed ++ (if continue then reader cmd rest else [])
  end.

(** ** The session: reader goroutine, control task and their environment *)

(** Where the control task stands: blocked in its first [select]
    ([Running]); past the close frame and blocked in the second [select],
    entered at clock reading [since] ([Closing]); or returned from [Run], at
    clock reading [finished] ([Done]). *)
Inductive control : Type :=
| Running
| Closing (since : N)
| Done (finished : N).

(** The state of a running session.  [reader_done] says that the reader has
    returned, which closes the channel [done]; [pending] says that the channel
    [interrupt], of capacity one, holds a signal; [writeErr] is gorilla's
    [c.writeErr], the first error of a write to the connection, which is
    [ErrCloseSent] once a close frame has been written. *)
Record session := Session {
  now : N;
  reader_done : bool;
  pending : bool;
  coordinator : control;
  stdout : list output;
  wire : list outbound;
  writeErr : option error;
}.

(** What happens to a session, one stimulus at a time.  A [write] is what the
    network returns for the write of a frame, when gorilla attempts it. *)
Inductive stimulus : Type :=
| Receive (m : message)
    (* a data message arrives, and the reader's [ReadMessage] returns it *)
| ReceiveFails (err : error) (write : option error)
    (* the reader's [ReadMessage] returns [err]: the peer has sent a close
       frame, the stream has ended, or the network reports an error *)
| Sigint
    (* the runtime delivers [os.Interrupt] to the channel [interrupt] *)
| TakeInterrupt (write : option error)
    (* the control task's [select] takes [<-interrupt], and writes the close
       frame *)
| TakeDone
    (* the control task's [select] takes [<-done] *)
| Elapse (d : N)
    (* time passes *)
| ReceivePing (appData : string) (write : option error)
    (* a ping arrives: [ReadMessage] answers it and reads on *)
| ReceiveInvalid (message : string) (write : option error).
    (* a frame arrives that violates the protocol: [ReadMessage] answers it
       and returns the error [websocket: message] *)

Definition print (s : session) (lines : list output) : session :=
  Session (now s) (reader_done s) (pending s) (coordinator s)
          (stdout s ++ lines) (wire s) (writeErr s).

Definition send (s : session) (frame : outbound) : session :=
  Session (now s) (reader_done s) (pending s) (coordinator s)
          (stdout s) (wire s ++ [frame]) (writeErr s).

Definition move (s : session) (c : control) : session :=
  Session (now s) (reader_done s) (pending s) c (stdout s) (wire s) (writeErr s).

(** gorilla's [c.writeFatal(err)]: the first error stays. *)
Definition writeFatal (s : session) (err : error) : session :=
  Session (now s) (reader_done s) (pending s) (coordinator s) (stdout s) (wire s)
          (Some (default err (writeErr s))).

(** What a write finds before it reaches the network.  An error in
    [c.writeErr] is returned as it is.  Besides, a control task that waits in
    its second [select] has written its close frame, after which gorilla
    returns [ErrCloseSent]; and one that has returned from [Run] has closed
    the connection on its way out ([defer conn.Close()]), and the network
    refuses the write. *)
Definition refusal (s : session) : option error :=
  match writeErr s, coordinator s with
  | Some err, _ => Some err
  | None, Running => None
  | None, Closing _ => Some ErrCloseSent
  | None, Done _ => Some ErrClosed
  end.

Definition is_close (frame : outbound) : bool :=
  match frame with
  | CloseMessage _ _ | CloseEmpty => true
  | _ => false
  end.

Definition is_pong (frame : outbound) : bool :=
  match frame with
  | PongMessage _ => true
  | _ => false
  end.

(** A write of [frame], by [c.WriteMessage] or [c.WriteControl]: the session
    after it, and the error it returns.  A refused write leaves everything as
    it is; an error of the network is kept in [c.writeErr]; and so is
    [ErrCloseSent] when the frame written is a close frame. *)
Definition write_frame (s : session) (frame : outbound) (write : option error)
  : session * option error :=
  match refusal s with
  | Some err => (s, Some err)
  | None =>
      match write with
      | Some err => (writeFatal s err, Some err)
      | None =>
          (if is_close frame then writeFatal (send s frame) ErrCloseSent
           else send s frame,
           None)
      end
  end.

(** gorilla's default ping handler, which runs inside [ReadMessage]: it writes
    a pong with the data of the ping; of the errors of that write it lets
    [ErrCloseSent] and every [net.Error] pass, and returns any other, which
    ends the read. *)
Definition handlePing (s : session) (appData : string) (write : option error)
  : session * option error :=
  let written := write_frame s (PongMessage appData) write in
  (fst written,
   match snd written with
   | Some err => if bool_decide (err = ErrCloseSent) || Net err then None else Some err
   | None => None
   end).

(** gorilla's default close handler, which runs inside [ReadMessage] when a
    close frame with the code [code] has arrived: it writes a close frame with
    the same code and no text, whatever the write returns. *)
Definition handleClose (s : session) (code : Z) (write : option error) : session :=
  fst (write_frame s (FormatCloseMessage code EmptyString) write).

(** gorilla's [c.handleProtocolError(message)]: it writes a close frame with
    the code 1002 and the message, cut to the 125 bytes of a control frame,
    and makes the error that [ReadMessage] returns. *)
Definition handleProtocolError (s : session) (message : string) (write : option error)
  : session * error :=
  (fst (write_frame s (CloseMessage CloseProtocolError (Str.upto 123 message)) write),
   Err None false ("websocket: " +:+ message)).

(** What [ReadMessage] has written when it returns [err].  It returns a
    [*CloseError] in two cases: when the stream has ended, with the code 1006
    and nothing written, and when a close frame has arrived, with the code of
    the frame (1005 for a frame without payload; a frame cannot carry 1006),
    after the close handler has run.  Every other error comes from the
    network. *)
Definition failed_read (s : session) (err : error) (write : option error) : session :=
  match Code err with
  | Some code =>
      if (code =? CloseAbnormalClosure)%Z then s else handleClose s code write
  | None => s
  end.

(** The first line of the interrupt case: debugListenCmd line 120, connectCmd
    line 142. *)
Definition disconnecting (cmd : command) : output :=
  match cmd with
  | Listen _ _ => Notice [Text (Strings.LF +:+ "👋 Disconnecting..." +:+ Strings.LF)]
  | Connect => Notice [Text (Strings.LF +:+ "Disconnecting..." +:+ Strings.LF)]
  end.

(** The write of the close frame failed: debugListenCmd lines 122-124 return
    in silence, connectCmd lines 145-148 log the error first. *)
Definition close_failed (cmd : command) (err : error) : list output :=
  match cmd with
  | Listen _ _ => []
  | Connect =>
      [WriteError [LogPrefix; Text ("write-close: " +:+ Error err +:+ Strings.LF)]]
  end.

(** The case [<-done] of the first [select]: debugListenCmd lines 129-130,
    connectCmd lines 139-140. *)
Definition reader_finished (cmd : command) : list output :=
  match cmd with
  | Listen _ _ => [Notice [Text ("Server closed connection" +:+ Strings.LF)]]
  | Connect => []
  end.

(** The reader goroutine takes one turn of its loop on what [ReadMessage] has
    returned. *)
Definition reader_step (cmd : command) (s : session) (r : received) : session :=
  let turn := reader_turn cmd (now s) r in
  Session (now s) (negb (snd turn)) (pending s) (coordinator s)
          (stdout s ++ fst turn) (wire s) (writeErr s).

(** gorilla's [c.ReadMessage()] on what arrives: the session once the
    handlers have run, and what the call returns to the reader's loop; after a
    ping it returns nothing yet and reads on. *)
Definition ReadMessage (s : session) (e : stimulus) : session * option received :=
  match e with
  | Receive m => (s, Some (Frame m))
  | ReceiveFails err write => (failed_read s err write, Some (Failure err))
  | ReceivePing appData write =>
      let handled := handlePing s appData write in
      (fst handled, option_map Failure (snd handled))
  | ReceiveInvalid message write =>
      let handled := handleProtocolError s message write in
      (fst handled, Some (Failure (snd handled)))
  | _ => (s, None)
  end.

(** The reader goroutine, blocked in [ReadMessage], gets what arrives; a
    reader that has returned reads no more.  It does so whatever the control
    task is doing, also after [Run] has returned, until the process ends. *)
Definition receive (cmd : command) (s : session) (e : stimulus) : session :=
  if reader_done s then s
  else
    let read := ReadMessage s e in
    match snd read with
    | Some r => reader_step cmd (fst read) r
    | None => fst read
    end.

(** The control task takes the case [<-interrupt] (debugListenCmd lines
    119-128, connectCmd lines 141-153): it can only when it is in its first
    [select] and the channel holds a signal. *)
Definition take_interrupt (cmd : command) (s : session) (write : option error)
  : session :=
  match coordinator s, pending s with
  | Running, true =>
      let s := Session (now s) (reader_done s) false Running
                       (stdout s ++ [disconnecting cmd]) (wire s) (writeErr s) in
      let written :=
        write_frame s (FormatCloseMessage CloseNormalClosure EmptyString) write in
      match snd written with
      | Some err => move (print (fst written) (close_failed cmd err)) (Done (now s))
      | None => move (fst written) (Closing (now s))
      end
  | _, _ => s
  end.

(** The control task takes the case [<-done], of the first [select] or of
    the second: it can only once the reader has returned. *)
Definition take_done (cmd : command) (s : session) : session :=
  if reader_done s then
    match coordinator s with
    | Running => move (print s (reader_finished cmd)) (Done (now s))
    | Closing _ => move s (Done (now s))
    | Done _ => s
    end
  else s.

(** Time passes by [d].  A control task in its second [select] returns
    through [<-time.After(time.Second)] when the second that began at [since]
    is over. *)
Definition elapse (s : session) (d : N) : session :=
  let later := (now s + d)%N in
  match coordinator s with
  | Closing since =>
      if (since + Time.Second <=? later)%N
      then Session later (reader_done s) (pending s) (Done (since + Time.Second))
                   (stdout s) (wire s) (writeErr s)
      else Session later (reader_done s) (pending s) (coordinator s)
                   (stdout s) (wire s) (writeErr s)
  | _ => Session later (reader_done s) (pending s) (coordinator s)
                 (stdout s) (wire s) (writeErr s)
  end.

(** One step of the session.  The control task moves only until [Run] has
    returned; the reader goroutine is not joined and goes on as long as the
    process lives. *)
Definition step (cmd : command) (s : session) (e : stimulus) : session :=
  match e with
  | Sigint => Session (now s) (reader_done s) true (coordinator s)
                      (stdout s) (wire s) (writeErr s)
  | TakeInterrupt write => take_interrupt cmd s write
  | TakeDone => take_done cmd s
  | Elapse d => elapse s d
  | _ => receive cmd s e
  end.

Definition run (cmd : command) (es : list stimulus) (s : session) : session :=
  fold_left (step cmd) es s.

(** The rendered events among the printed lines, in order. *)
Definition rendered (out : list output) : list (list chunk) :=
  omap (fun o => match o with Rendered text => Some text | _ => None end) out.

(** The time the stimuli take. *)
Definition duration (es : list stimulus) : N :=
  fold_right (fun e acc => match e with Elapse d => (d + acc)%N | _ => acc end) 0%N es.

(** What can be seen of a session: everything but the content of the channel
    [interrupt]. *)
Definition observable (s : session)
  : N * bool * control * list output * list outbound * option error :=
  (now s, reader_done s, coordinator s, stdout s, wire s, writeErr s).

(** ** Starting the commands *)

(** How [Run] has gone so far: it has called [os.Exit] (or [log.Fatal], which
    does), it has returned, or it is streaming. *)
Inductive progress : Type :=
| Exited (printed : list output) (code : Z)
| Returned (printed : list output)
| Streaming (s : session).

(** A session right after the handshake, at clock reading [t]. *)
Definition connected (t : N) (printed : list output) (sent : list outbound)
  : session :=
  Session t false false Running printed sent None.

(** debugListenCmd, lines 41-53: the URL of the stream. *)
Definition listen_url (apiKey zone apiURL : string) : string :=
  let wsURL :=
    if negb (String.eqb apiURL EmptyString)
       && negb (Strings.Contains apiURL "localhost")
    then Strings.ReplaceFirst apiURL "https://" "wss://" +:+ "/v1/events/stream"
    else "ws://localhost:8089/v1/events/stream" in
  let wsURL := wsURL +:+ "?api_key=" +:+ apiKey in
  if negb (String.eqb zone EmptyString) then wsURL +:+ "&zone=" +:+ zone else wsURL.

(** debugListenCmd, lines 30-68.  [api_key], [current_zone] and [api_url] are
    the configuration values, [zone_flag] the flag [--zone], and [dial] the
    error of [websocket.DefaultDialer.Dial], if any. *)
Definition listen_start (api_key current_zone api_url zone_flag : string)
    (dial : option error) (t : N) : progress :=
  if String.eqb api_key EmptyString then
    Exited [StartError [Text ("Error: API key not set. Use 'sapliy auth login'."
                              +:+ Strings.LF)]] 1
  else
    let zone := if String.eqb current_zone EmptyString then zone_flag else current_zone in
    let wsURL := listen_url api_key zone api_url in
    let connecting := Notice [Text ("🔌 Connecting to " +:+ wsURL +:+ "..." +:+ Strings.LF)] in
    match dial with
    | Some err =>
        Returned [connecting;
                  StartError [Text ("❌ Failed to connect: " +:+ Error err +:+ Strings.LF)]]
    | None =>
        Streaming (connected t
          [connecting;
           Notice [Text ("✅ Connected! Streaming events... (Ctrl+C to stop)" +:+ Strings.LF)];
           Notice [Text (Strings.Repeat "─" 60 +:+ Strings.LF)]]
          [])
    end.

(** connectCmd, lines 82-85: the URL is the argument, if there is one. *)
Definition serverURL (args : list string) : string :=
  match args with
  | a :: _ => a
  | [] => "ws://localhost:8080/ws"
  end.

(** connectCmd, lines 87-135.  [args] are the arguments and [trigger] the
    flag; [parse] is what [url.Parse] returns for the server URL ([inl] the
    text of [u.String()], [inr] an error), [dial] the error of the handshake,
    if any, and [write] what the network returns for the trigger's write.  The
    trigger is written before the reader's first receive returns. *)
Definition connect_start (args : list string) (trigger : string)
    (parse : string -> string + error) (dial write : option error) (t : N)
  : progress :=
  match parse (serverURL args) with
  | inr err =>
      Exited [StartError [LogPrefix; Text ("Invalid URL:" +:+ Error err +:+ Strings.LF)]] 1
  | inl u =>
      let connecting := Notice [Text ("🔌 Connecting to " +:+ u +:+ "..." +:+ Strings.LF)] in
      match dial with
      | Some err =>
          Exited [connecting;
                  StartError [LogPrefix;
                              Text ("Connection failed:" +:+ Error err +:+ Strings.LF)]] 1
      | None =>
          let listening :=
            Notice [Text ("✅ Connected! Listening for events..." +:+ Strings.LF)] in
          if String.eqb trigger EmptyString then
            Streaming (connected t [connecting; listening] [])
          else
            let triggering :=
              Notice [Text ("> Triggering event: " +:+ trigger +:+ Strings.LF)] in
            let written :=
              write_frame (connected t [connecting; listening; triggering] [])
                          (TextMessage trigger) write in
            match snd written with
            | Some err =>
                Streaming (print (fst written)
                  [WriteError [LogPrefix;
                               Text ("write-error: " +:+ Error err +:+ Strings.LF)]])
            | None => Streaming (fst written)
            end
      end
  end.

(** Modelled from the spec: the caller of [Run] (the root command's [Execute]
    and [main]) is not among the sources.  Section 4.5 has the control task
    "return control to the caller for process exit", and section 6 gives that
    exit the code 0; so a [Run] that returns ends the process with status 0,
    and one that exits ends it with the code it passes.  While the command
    streams there is no status yet. *)
Definition exit_status (p : progress) : option Z :=
  match p with
  | Exited _ code => Some code
  | Returned _ => Some 0%Z
  | Streaming s =>
      match coordinator s with
      | Done _ => Some 0%Z
      | _ => None
      end
  end.

(** The command after the stimuli [es]. *)
Definition after (cmd : command) (es : list stimulus) (p : progress) : progress :=
  match p with
  | Streaming s => Streaming (run cmd es s)
  | _ => p
  end.

(** ** Notions of the statements *)

(** [sub] occurs in [s]. *)
Definition occurs_in (sub s : string) : Prop :=
  exists before after, s = before +:+ sub +:+ after.

(** The frame decodes and its type passes the filter: the frame is one of the
    M frames of the count. *)
Definition accepted (filterType : string) (m : message) : bool :=
  match Unmarshal m with
  | Some ev => passes filterType (eventType ev)
  | None => false
  end.

(** The line of a frame that decodes, at clock reading [t]. *)
Definition line_of (verbose : bool) (t : N) (m : message) : list chunk :=
  match Unmarshal m with
  | Some ev => render verbose t ev
  | None => []
  end.

(** The string that the fields hold at [key]; empty when the key is missing
    or holds a value of another kind. *)
Definition string_at (fields : gmap string value) (key : string) : string :=
  match fields !! key with
  | Some (VString s) => s
  | _ => EmptyString
  end.

(** The fields of a decoded event; the nil map has none. *)
Definition fields_of (ev : event) : gmap string value :=
  match ev with
  | NilMap => ∅
  | Map fields => fields
  end.

(** The string at [id] of the object at [data], if there is one. *)
Definition identifier_of (fields : gmap string value) : string :=
  match fields !! "data" with
  | Some (VMap data) => string_at data "id"
  | _ => EmptyString
  end.



(** The frame is a JSON object. *)
Definition is_object (m : message) : bool :=
  match json m with
  | Some (VMap _) => true
  | _ => false
  end.

(** The number of line feeds in a text. *)
Fixpoint line_feeds (s : string) : nat :=
  match s with
  | EmptyString => 0
  | String c rest => (if Ascii.eqb c "010" then 1 else 0) + line_feeds rest
  end.

(** The decimal digit [n], for [n] below ten. *)
Definition numeral (n : N) : ascii := ascii_of_N (48 + n).

(** The time of day [h]:[mi]:[sec], two digits each. *)
Definition clock_text (h mi sec : N) : string :=
  String (numeral (h / 10)) (String (numeral (h mod 10)) (String ":"
  (String (numeral (mi / 10)) (String (numeral (mi mod 10)) (String ":"
  (String (numeral (sec / 10)) (String (numeral (sec mod 10)) EmptyString))))))).

(** An inbox of frames only: no receive fails. *)
Definition frames_only (frames : list (N * message)) : list (N * received) :=
  map (fun tm => (fst tm, Frame (snd tm))) frames.


(** ** Sample frames *)

Module Samples.

Definition quoted (s : string) : string :=
  String "034"%char EmptyString +:+ s +:+ String "034"%char EmptyString.

(** The frame [{"type":T,"data":{"id":I}}]. *)
Definition typed (ty id : string) : message :=
  Message ("{" +:+ quoted "type" +:+ ":" +:+ quoted ty +:+ "," +:+
           quoted "data" +:+ ":{" +:+ quoted "id" +:+ ":" +:+ quoted id +:+ "}}")
          (Some (VMap {[ "type" := VString ty;
                         "data" := VMap {[ "id" := VString id ]} ]})).

(** The frame [{"type":T,"data":{"id":7}}]: the identifier is a number. *)
Definition numbered (ty : string) : message :=
  Message ("{" +:+ quoted "type" +:+ ":" +:+ quoted ty +:+ "," +:+
           quoted "data" +:+ ":{" +:+ quoted "id" +:+ ":7}}")
          (Some (VMap {[ "type" := VString ty;
                         "data" := VMap {[ "id" := VNumber "7" ]} ]})).

(** The frame [{"data":{"id":I}}]: no type. *)
Definition untyped (id : string) : message :=
  Message ("{" +:+ quoted "data" +:+ ":{" +:+ quoted "id" +:+ ":" +:+ quoted id +:+ "}}")
          (Some (VMap {[ "data" := VMap {[ "id" := VString id ]} ]})).

(** The JSON text [null]. *)
Definition null : message := Message "null" (Some VNil).

(** Bytes that are not JSON. *)
Definition garbled : message := Message "payment.created p_1" None.

(** The JSON text [[1,2]]: well-formed, but not an object. *)
Definition array : message :=
  Message "[1,2]" (Some (VSlice [VNumber "1"; VNumber "2"])).

(** A close with code 1000 and one with code 1006, as gorilla reports them,
    and an error of the network. *)
Definition normal_close : error :=
  Err (Some 1000%Z) false "websocket: close 1000 (normal)".
Definition abnormal_close : error :=
  Err (Some 1006%Z) false "websocket: close 1006 (abnormal closure): unexpected EOF".
Definition reset : error := Err None true "read: connection reset by peer".
Definition refused : error :=
  Err None true "dial tcp 127.0.0.1:8089: connect: connection refused".

(** A session of [debug listen] that has just connected, at midnight. *)
Definition fresh : session := connected 0 [] [].

End Samples.

(** ** Further notions of the statements *)

(** How far the control task has come. *)
Definition rank (c : control) : nat :=
  match c with
  | Running => 0
  | Closing _ => 1
  | Done _ => 2
  end.

(** The notices among the printed lines, in order. *)
Definition notices (out : list output) : list output :=
  List.filter (fun o => match o with Notice _ => true | _ => false end) out.

(** The reports of a receive error among the printed lines. *)
Definition read_errors (out : list output) : list output :=
  List.filter (fun o => match o with ReadError _ => true | _ => false end) out.

(** The frame with which gorilla answers what arrives, when the connection
    takes the write: a pong with the data of a ping; a close frame with the
    code of the peer's close frame and no text, or without payload when the
    peer's had none; and a close frame with the code 1002 for a frame that
    violates the protocol. *)
Definition answer (e : stimulus) : option outbound :=
  match e with
  | ReceivePing appData _ => Some (PongMessage appData)
  | ReceiveFails err _ =>
      match Code err with
      | Some code =>
          if (code =? CloseAbnormalClosure)%Z then None
          else Some (if (code =? CloseNoStatusReceived)%Z then CloseEmpty
                     else CloseMessage code EmptyString)
      | None => None
      end
  | ReceiveInvalid message _ =>
      Some (CloseMessage CloseProtocolError (Str.upto 123 message))
  | _ => None
  end.

(** No interrupt is delivered in [es]. *)
Definition uninterrupted (es : list stimulus) : bool :=
  forallb (fun e => match e with Sigint => false | _ => true end) es.

(** * The other commands *)

(** ** webhooks: [truncate] and [formatTimestamp] (lines 219-235) *)

(** [truncate(s, maxLen)]; [None] is the panic of a slice with a negative
    bound. *)
Definition truncate (s : string) (maxLen : Z) : option string :=
  if (Z.of_nat (String.length s) <=? maxLen)%Z then Some s
  else if (maxLen - 3 <? 0)%Z then None
  else Some (Str.upto (Z.to_nat (maxLen - 3)) s +:+ "...").

Inductive Month : Type :=
| January | February | March | April | May | June
| July | August | September | October | November | December.

(** What the layout [Jan 02 15:04] reads of a [time.Time]. *)
Record moment := Moment {
  month : Month;
  day : N;
  hour : N;
  minute : N;
}.

Definition Jan (m : Month) : string :=
  match m with
  | January => "Jan" | February => "Feb" | March => "Mar" | April => "Apr"
  | May => "May" | June => "Jun" | July => "Jul" | August => "Aug"
  | September => "Sep" | October => "Oct" | November => "Nov" | December => "Dec"
  end.

(** [t.Format("Jan 02 15:04")]. *)
Definition FormatStamp (t : moment) : string :=
  Jan (month t) +:+ " " +:+ Time.two_digits (day t) +:+ " " +:+
  Time.two_digits (hour t) +:+ ":" +:+ Time.two_digits (minute t).

(** [formatTimestamp(ts)]; [Parse] is [time.Parse(time.RFC3339, _)], [None]
    when it returns an error. *)
Definition formatTimestamp (Parse : string -> option moment) (ts : string) : string :=
  if String.eqb ts EmptyString then "—"
  else match Parse ts with
       | None => ts
       | Some t => FormatStamp t
       end.

(** ** What a command does *)

(** A call of the SDK's client. *)
Inductive call : Type :=
| GetPastEvents (zone : string) (limit offset : Z)
| ReplayEvent (eventID zone : string)
| TriggerEvent (eventType zone : string) (data : event)
| CreateIntent (amount : Z) (currency zone : string).

(** How [Run] ends: with [os.Exit] (or [log.Fatal]), by returning, or in a
    panic. *)
Inductive ending : Type :=
| Exits (code : Z)
| Returns
| Panics.

(** What a command has printed, one entry for each call that prints, the calls
    of the client it has made, and how it has ended. *)
Record report := Report {
  said : list (list chunk);
  called : list call;
  ended : ending;
}.

Definition line (s : string) : list chunk := [Text (s +:+ Strings.LF)].

(** ** webhooks list (lines 23-79) *)

(** An event as the SDK returns it; [Data] holds the bytes that
    [json.Marshal(evt.Data)] yields. *)
Record past_event := PastEvent {
  ID : string;
  Type' : string;
  CreatedAt : moment;
  Data : string;
}.

(** Lines 33-36 and 92-95: the flag [--zone] goes before the configured
    zone. *)
Definition webhooks_zone (current_zone zoneID : string) : string :=
  if negb (String.eqb zoneID EmptyString) then zoneID else current_zone.

(** Line 67. *)
Definition webhooks_header : string :=
  Strings.left_justified 24 "EVENT ID" +:+ " " +:+
  Strings.left_justified 25 "TYPE" +:+ " " +:+
  Strings.left_justified 15 "CREATED AT" +:+ " " +:+
  Strings.left_justified 15 "DATA" +:+ Strings.LF.

(** Lines 71-76: the line of one event; [None] when [truncate] panics. *)
Definition webhooks_row (evt : past_event) : option string :=
  match truncate (Data evt) 30 with
  | Some dataStr =>
      Some (Strings.left_justified 24 (ID evt) +:+ " " +:+
            Strings.left_justified 25 (Type' evt) +:+ " " +:+
            Strings.left_justified 15 (FormatStamp (CreatedAt evt)) +:+ " " +:+
            dataStr +:+ Strings.LF)
  | None => None
  end.

(** Lines 70-77: the lines printed, and whether the loop came to its end. *)
Fixpoint webhooks_rows (events : list past_event) : list (list chunk) * bool :=
  match events with
  | [] => ([], true)
  | evt :: rest =>
      match webhooks_row evt with
      | None => ([], false)
      | Some text =>
          let '(more, finished) := webhooks_rows rest in ([Text text] :: more, finished)
      end
  end.

(** webhooksListCmd; [fetch] is what [client.GetPastEvents] returns. *)
Definition webhooksList (api_key current_zone zoneID : string) (limit : Z)
    (fetch : list past_event + error) : report :=
  if String.eqb api_key EmptyString then
    Report [line "Error: API key not set. Use 'sapliy auth login'."] [] (Exits 1)
  else
    let zone := webhooks_zone current_zone zoneID in
    if String.eqb zone EmptyString then
      Report [line "Error: Zone ID is required. Use --zone or set in config."] [] Returns
    else
      let opening :=
        [line ("📋 Fetching webhook events (zone: " +:+ zone +:+ ")...");
         line (Strings.Repeat "─" 80)] in
      let calls := [GetPastEvents zone limit 0] in
      match fetch with
      | inr err =>
          Report (opening ++ [line ("Error: Failed to fetch events: " +:+ Error err)])
                 calls Returns
      | inl [] => Report (opening ++ [line "No webhook events found."]) calls Returns
      | inl events =>
          let '(rows, finished) := webhooks_rows events in
          Report (opening ++ [[Text webhooks_header]; line (Strings.Repeat "─" 80)] ++ rows)
                 calls (if finished then Returns else Panics)
      end.

(** ** webhooks replay (lines 81-126) *)

(** webhooksReplayCmd; [eventID] is the argument, [response] what
    [fmt.Scanln] has stored, [mapped] the non-ASCII case of [strings.ToLower],
    and [replay] the error of [client.ReplayEvent], if any. *)
Definition webhooksReplay (api_key current_zone zoneID eventID : string)
    (force : bool) (response : string) (mapped : string -> string)
    (replay : option error) : report :=
  if String.eqb api_key EmptyString then
    Report [line "Error: API key not set."] [] (Exits 1)
  else
    let zone := webhooks_zone current_zone zoneID in
    if String.eqb zone EmptyString then
      Report [line "Error: Zone ID is required. Use --zone or set in config."] [] Returns
    else
      let opening :=
        [line ("🔄 Replaying webhook event: " +:+ eventID +:+ " in zone: " +:+ zone)] in
      let asked :=
        if force then opening
        else opening ++ [[Text "Are you sure you want to replay this webhook? [y/N]: "]] in
      if negb force && negb (String.eqb (Str.ToLower mapped response) "y") then
        Report (asked ++ [line "Cancelled."]) [] Returns
      else
        match replay with
        | Some err =>
            Report (asked ++ [line ("❌ Failed to replay event: " +:+ Error err)])
                   [ReplayEvent eventID zone] Returns
        | None =>
            Report (asked ++ [line "✅ Webhook replay triggered!"])
                   [ReplayEvent eventID zone] Returns
        end.

(** ** trigger (events.go, lines 17-53) *)

(** triggerCmd; [eventType] is the argument, [eventData] the flag [--data]
    with what [encoding/json] reads from it, [zoneID] the flag [--zone],
    [decoding] the text of the error of [json.Unmarshal] when it fails, and
    [result] the error of [client.TriggerEvent], if any. *)
Definition trigger (api_key eventType : string) (eventData : message)
    (zoneID decoding : string) (result : option error) : report :=
  if String.eqb api_key EmptyString then
    Report [line "Error: API key not set. Use 'sapliy auth login' or set in config."]
           [] Returns
  else
    let data :=
      if negb (String.eqb (bytes eventData) EmptyString)
      then Unmarshal eventData else Some NilMap in
    match data with
    | None =>
        Report [[LogPrefix; Text ("Invalid JSON data: " +:+ decoding +:+ Strings.LF)]]
               [] (Exits 1)
    | Some data =>
        let opening :=
          [line ("Triggering event '" +:+ eventType +:+ "' in zone '" +:+ zoneID +:+ "'...")] in
        match result with
        | Some err =>
            Report (opening ++ [line ("Failed to trigger event: " +:+ Error err)])
                   [TriggerEvent eventType zoneID data] Returns
        | None =>
            Report (opening ++
                    [line "✅ Event triggered successfully! The Flow Runner will process it shortly."])
                   [TriggerEvent eventType zoneID data] Returns
        end
    end.

(** ** payments create (payments.go, lines 18-46) *)

(** createPaymentCmd; [result] is what [client.Payments.CreateIntent]
    returns: the ID of the payment, or an error. *)
Definition createPayment (api_key : string) (amount : Z) (currency current_zone : string)
    (result : string + error) : report :=
  if String.eqb api_key EmptyString then
    Report [line "Error: Not authenticated. Use 'sapliy auth login'."] [] (Exits 1)
  else
    match result with
    | inr err =>
        Report [line ("Error creating payment: " +:+ Error err)]
               [CreateIntent amount currency current_zone] Returns
    | inl id =>
        Report [line ("Payment created successfully! ID: " +:+ id)]
               [CreateIntent amount currency current_zone] Returns
    end.

(** ** debug repl (part_001, lines 157-222) *)

(** What one line of input does: the loop goes on, with what was printed and
    the zone; the loop is left; or the command panics. *)
Inductive reaction : Type :=
| Goes (shown : list (list chunk)) (zone : string)
| Leaves (shown : list (list chunk))
| Crashes.

Definition prompt : list chunk := [Text "sapliy> "].

(** Lines 193-197. *)
Definition repl_help : string :=
  "Commands:" +:+ Strings.LF +:+
  "  emit <type> [json]  - Emit an event (e.g., emit payment.created {" +:+
  String "034"%char "amount" +:+ String "034"%char ":100})" +:+ Strings.LF +:+
  "  zone <id>           - Switch to a different zone" +:+ Strings.LF +:+
  "  status              - Show current configuration" +:+ Strings.LF +:+
  "  exit                - Exit the REPL".

(** Lines 183-219: one line of input, with the API key, the configured API
    URL and the current zone. *)
Definition repl_line (apiKey api_url zone text : string) : reaction :=
  let input := Str.TrimSpace text in
  if String.eqb input EmptyString then Goes [] zone
  else if String.eqb input "exit" || String.eqb input "quit" then
    Leaves [line "👋 Goodbye!"]
  else if String.eqb input "help" then Goes [line repl_help] zone
  else if String.eqb input "status" then
    if String.length apiKey <? 8 then Crashes
    else
      Goes [line ("API Key: " +:+ Str.upto 8 apiKey +:+ "..." +:+
                  Strings.from (String.length apiKey - 4) apiKey);
            line ("Zone: " +:+ zone);
            line ("API URL: " +:+ api_url)] zone
  else if Str.HasPrefix input "emit " then
    let '(eventType, rest) := Str.SplitBlank (Strings.from 5 input) in
    let data := default "{}" rest in
    Goes [line ("➡️  Emitting " +:+ eventType +:+ ": " +:+ data)] zone
  else if Str.HasPrefix input "zone " then
    let zone := Str.TrimSpace (Strings.from 5 input) in
    Goes [line ("✅ Switched to zone: " +:+ zone)] zone
  else Goes [line ("Unknown command: " +:+ input)] zone.

(** Lines 177-220: the loop over the lines that the scanner yields; what is
    printed, the zone at the end, and how the command ends. *)
Fixpoint repl_loop (apiKey api_url zone : string) (lines : list string)
  : list (list chunk) * string * ending :=
  match lines with
  | [] => ([prompt], zone, Returns)
  | text :: rest =>
      match repl_line apiKey api_url zone text with
      | Crashes => ([prompt], zone, Panics)
      | Leaves shown => (prompt :: shown, zone, Returns)
      | Goes shown zone' =>
          let '(more, z, e) := repl_loop apiKey api_url zone' rest in
          (prompt :: shown ++ more, z, e)
      end
  end.

(** debugReplCmd. *)
Definition debugRepl (apiKey current_zone api_url : string) (lines : list string)
  : list (list chunk) * string * ending :=
  if String.eqb apiKey EmptyString then
    ([line "Error: API key not set."], current_zone, Exits 1)
  else
    let '(more, z, e) := repl_loop apiKey api_url current_zone lines in
    ([line "🎮 Sapliy Debug REPL";
      line "Type 'help' for commands, 'exit' to quit";
      line ("Current zone: " +:+ current_zone);
      line (Strings.Repeat "─" 60)] ++ more, z, e).

(** * Properties *)

(** ** Strings *)

Lemma append_nil (b : string) : EmptyString +:+ b = b.
Proof. reflexivity. Qed.

Lemma append_cons (c : ascii) (a b : string) :
  String c a +:+ b = String c (a +:+ b).
Proof. reflexivity. Qed.

Lemma append_assoc (a b c : string) : (a +:+ b) +:+ c = a +:+ b +:+ c.
Proof.
  induction a as [|x a IH]; [reflexivity|].
  rewrite !append_cons. now f_equal.
Qed.

Lemma prefix_spec (p s : string) :
  String.prefix p s = true <-> exists rest, s = p +:+ rest.
Proof.
  revert s; induction p as [|x p IH]; intros s.
  - split; [intros _; now exists s | intros _; now destruct s].
  - destruct s as [|y s]; cbn [String.prefix].
    + split; [discriminate | intros [rest H]; discriminate H].
    + destruct (Ascii.ascii_dec x y) as [->|Hne].
      * rewrite IH. split; intros [rest H]; exists rest.
        -- now rewrite H.
        -- rewrite append_cons in H. now inversion H.
      * split; [discriminate|].
        intros [rest H]. rewrite append_cons in H. congruence.
Qed.

Lemma Contains_spec (s sub : string) :
  Strings.Contains s sub = true <-> occurs_in sub s.
Proof.
  induction s as [|c s IH]; cbn [Strings.Contains].
  - destruct (String.prefix sub EmptyString) eqn:Hp.
    + split; [intros _ | reflexivity].
      apply prefix_spec in Hp as [rest Hr]. now exists EmptyString, rest.
    + split; [discriminate | intros ([|x before] & after & H)].
      * assert (String.prefix sub EmptyString = true) as Ht
          by (apply prefix_spec; now exists after).
        congruence.
      * discriminate H.
  - destruct (String.prefix sub (String c s)) eqn:Hp.
    + split; [intros _ | reflexivity].
      apply prefix_spec in Hp as [rest Hr]. now exists EmptyString, rest.
    + rewrite IH. split.
      * intros (before & after & ->). now exists (String c before), after.
      * intros ([|x before] & after & H).
        -- assert (String.prefix sub (String c s) = true) as Ht
             by (apply prefix_spec; now exists after).
           congruence.
        -- rewrite append_cons in H. inversion H; subst. now exists before, after.
Qed.

Lemma Contains_in_empty (sub : string) :
  sub <> EmptyString -> Strings.Contains EmptyString sub = false.
Proof. destruct sub; [congruence | reflexivity]. Qed.

Lemma eqb_empty (s : string) : String.eqb s EmptyString = true <-> s = EmptyString.
Proof. apply String.eqb_eq. Qed.

Lemma occurs_in_empty (a : string) : occurs_in a EmptyString -> a = EmptyString.
Proof.
  intros ([|x p] & q & H); [|discriminate H].
  destruct a; [reflexivity | discriminate H].
Qed.

Lemma passes_spec (filterType ty : string) :
  passes filterType ty = true <->
  filterType = EmptyString \/ occurs_in filterType ty.
Proof.
  unfold passes. rewrite <- Contains_spec, <- eqb_empty.
  destruct (String.eqb filterType EmptyString), (Strings.Contains ty filterType);
    simpl; intuition congruence.
Qed.

Lemma RuneCount_append (a b : string) :
  Strings.RuneCountInString (a +:+ b) =
  Strings.RuneCountInString a + Strings.RuneCountInString b.
Proof.
  induction a as [|c a IH]; [reflexivity|].
  rewrite append_cons. cbn [Strings.RuneCountInString]. rewrite IH. lia.
Qed.

Lemma RuneCount_blanks (n : nat) :
  Strings.RuneCountInString (Strings.Repeat " " n) = n.
Proof.
  induction n as [|n IH]; [reflexivity|].
  cbn [Strings.Repeat]. rewrite RuneCount_append, IH. reflexivity.
Qed.

Lemma left_justified_width (width : nat) (s : string) :
  Strings.RuneCountInString (Strings.left_justified width s) =
  Nat.max width (Strings.RuneCountInString s).
Proof.
  unfold Strings.left_justified. rewrite RuneCount_append, RuneCount_blanks. lia.
Qed.

(** ** The reader of [debug listen] *)

Lemma listen_turn_frame (verbose : bool) (filterType : string) (t : N) (m : message) :
  reader_turn (Listen verbose filterType) t (Frame m) =
  (if accepted filterType m then [Rendered (line_of verbose t m)] else [], true).
Proof.
  unfold reader_turn, accepted, line_of.
  destruct (Unmarshal m) as [ev|]; [|reflexivity].
  now destruct (passes filterType (eventType ev)).
Qed.

Lemma reader_app_frames (cmd : command) (frames : list (N * message))
    (rest : list (N * received)) :
  reader cmd (frames_only frames ++ rest) =
  reader cmd (frames_only frames) ++ reader cmd rest.
Proof.
  induction frames as [|[t m] frames IH]; [reflexivity|].
  cbn [frames_only map app reader fst snd]. fold (frames_only frames).
  destruct cmd as [verbose filterType|].
  - rewrite listen_turn_frame.
    rewrite IH. apply List.app_assoc.
  - cbn [reader_turn]. rewrite IH. reflexivity.
Qed.

Example unmarshal_typed :
  Unmarshal (Samples.typed "payment.created" "p_1") =
  Some (Map {[ "type" := VString "payment.created";
               "data" := VMap {[ "id" := VString "p_1" ]} ]}).
Proof. reflexivity. Qed.

Example compact_line_of_typed :
  line_of false 3723000000000 (Samples.typed "payment.created" "p_1") =
  [Text ("[01:02:03] payment.created                 p_1" +:+ Strings.LF)].
Proof. vm_compute. reflexivity. Qed.

(** Section 8 of the specification: five frames, the filter [payment], compact
    lines; three lines come out, in the order of arrival. *)
Example five_frames_filtered :
  rendered (reader (Listen false "payment")
    (frames_only [(1000000000%N, Samples.typed "payment.created" "p_1");
                  (2000000000%N, Samples.typed "payment.failed" "p_2");
                  (3000000000%N, Samples.typed "user.login" "u_1");
                  (4000000000%N, Samples.typed "payment.created" "p_3");
                  (5000000000%N, Samples.typed "system.heartbeat" "h_1")])) =
  [[Text ("[00:00:01] payment.created                 p_1" +:+ Strings.LF)];
   [Text ("[00:00:02] payment.failed                  p_2" +:+ Strings.LF)];
   [Text ("[00:00:04] payment.created                 p_3" +:+ Strings.LF)]].
Proof. vm_compute. reflexivity. Qed.

(** The JSON text [null] decodes, to the nil map: its type reads as empty, so
    it is printed when there is no filter and dropped when there is one.  An
    array does not decode. *)
Example null_frame :
  Unmarshal Samples.null = Some NilMap
  /\ reader_turn (Listen false EmptyString) 0 (Frame Samples.null) =
       ([Rendered [Text ("[00:00:00] " +:+ Strings.Repeat " " 32 +:+ Strings.LF)]], true)
  /\ reader_turn (Listen false "payment") 0 (Frame Samples.null) = ([], true)
  /\ Unmarshal Samples.array = None.
Proof. repeat split. Qed.

(** The reader of [connect] prints the bytes of every frame, JSON or not. *)
Example connect_prints_the_bytes :
  reader Connect (frames_only [(0%N, Samples.garbled); (0%N, Samples.array)]) =
  [Rendered [Text ("< payment.created p_1" +:+ Strings.LF)];
   Rendered [Text ("< [1,2]" +:+ Strings.LF)]].
Proof. reflexivity. Qed.

Example listen_url_of_a_deployment :
  listen_url "sk_live" "zone_1" "https://api.sapliy.io" =
  "wss://api.sapliy.io/v1/events/stream?api_key=sk_live&zone=zone_1".
Proof. reflexivity. Qed.

(** *** What the reader reads off a frame *)

Lemma eventType_fields (ev : event) : eventType ev = string_at (fields_of ev) "type".
Proof.
  unfold eventType, index, string_at. destruct ev as [|fields]; cbn [fields_of].
  - now rewrite lookup_empty.
  - destruct (fields !! "type") as [[]|]; reflexivity.
Qed.

Lemma compact_id_fields (ev : event) : compact_id ev = identifier_of (fields_of ev).
Proof.
  unfold compact_id, identifier_of, index, string_at. destruct ev as [|fields]; cbn [fields_of].
  - now rewrite lookup_empty.
  - destruct (fields !! "data") as [[| | | | |data]|]; cbn; try reflexivity.
    destruct (data !! "id") as [[]|]; reflexivity.
Qed.





(** The JSON text [null] is no JSON object, and the reader of [debug listen]
    renders it all the same when no filter is given. *)
Lemma null_is_no_object_and_is_rendered :
  is_object Samples.null = false
  /\ reader_turn (Listen false EmptyString) 0 (Frame Samples.null) =
       ([Rendered [Text ("[00:00:00] " +:+ Strings.Repeat " " 32 +:+ Strings.LF)]], true).
Proof. split; reflexivity. Qed.

(** C4, as the code has it: no frame ends the reader's loop or makes it print
    an error; a turn prints nothing or one rendered event.  A frame that is
    neither a JSON object nor the JSON text [null] prints nothing: with it or
    without it the reader prints the same, and the session stays as it was.
    The JSON text [null] is read as an event without fields: it is rendered,
    with an empty type, when the filter is empty, and dropped otherwise. *)
Theorem undecodable_frame_is_skipped
    (verbose : bool) (filterType : string) (t : N) (m : message) :
  snd (reader_turn (Listen verbose filterType) t (Frame m)) = true
  /\ (fst (reader_turn (Listen verbose filterType) t (Frame m)) = []
      \/ exists text,
           fst (reader_turn (Listen verbose filterType) t (Frame m)) = [Rendered text])
  /\ ((forall fields, json m <> Some (VMap fields)) -> json m <> Some VNil ->
      reader_turn (Listen verbose filterType) t (Frame m) = ([], true)
      /\ (forall before rest,
            reader (Listen verbose filterType)
                   (frames_only before ++ (t, Frame m) :: rest) =
            reader (Listen verbose filterType) (frames_only before ++ rest))
      /\ (forall s, step (Listen verbose filterType) s (Receive m) = s))
  /\ (json m = Some VNil ->
      reader_turn (Listen verbose filterType) t (Frame m) =
        (if String.eqb filterType EmptyString
         then [Rendered
                 (if verbose
                  then [Text ("[" +:+ Time.Format t +:+ "] " +:+ Strings.LF);
                        Indented NilMap;
                        Text (Strings.LF +:+ Strings.LF)]
                  else [Text ("[" +:+ Time.Format t +:+ "] " +:+
                              Strings.Repeat " " 30 +:+ "  " +:+ Strings.LF)])]
         else [],
         true)).
Proof.
  split; [|split; [|split]].
  - rewrite listen_turn_frame. reflexivity.
  - rewrite listen_turn_frame. destruct (accepted filterType m); cbn; eauto.
  - intros Hobject Hnull.
    assert (Unmarshal m = None) as Hm.
    { unfold Unmarshal. destruct (json m) as [[| | | | |fields]|]; try reflexivity.
      - now destruct Hnull.
      - now destruct (Hobject fields). }
    assert (reader_turn (Listen verbose filterType) t (Frame m) = ([], true)) as Hturn
      by (cbn [reader_turn]; now rewrite Hm).
    split; [exact Hturn|]. split.
    + intros before rest. rewrite !reader_app_frames.
      cbn [reader]. now rewrite Hturn.
    + intros s. unfold step, receive, reader_step.
      destruct (reader_done s) eqn:Hd; [reflexivity|].
      cbn [ReadMessage fst snd reader_turn]. rewrite Hm. cbn [negb fst snd].
      destruct s; cbn in *; subst. now rewrite app_nil_r.
  - intros Hm. cbn [reader_turn]. unfold Unmarshal. rewrite Hm.
    unfold passes, eventType, render. cbn.
    destruct (String.eqb filterType EmptyString) eqn:Heq.
    + destruct verbose; reflexivity.
    + cbn. destruct filterType; [discriminate Heq | reflexivity].
Qed.

Lemma undecodable_frame_is_skipped_witness :
  reader_turn (Listen false EmptyString) 0 (Frame Samples.array) = ([], true)
  /\ reader_turn (Listen false "payment") 0 (Frame Samples.garbled) = ([], true).
Proof.
  split.
  - destruct (undecodable_frame_is_skipped false EmptyString 0%N Samples.array)
      as (_ & _ & Hskipped & _).
    apply Hskipped; [intros fields|]; discriminate.
  - destruct (undecodable_frame_is_skipped false "payment" 0%N Samples.garbled)
      as (_ & _ & Hskipped & _).
    apply Hskipped; [intros fields|]; discriminate.
Defined.

(** ** Rendering *)

Lemma line_feeds_append (a b : string) :
  line_feeds (a +:+ b) = line_feeds a + line_feeds b.
Proof.
  induction a as [|c a IH]; [reflexivity|].
  rewrite append_cons. cbn [line_feeds]. rewrite IH. lia.
Qed.

Lemma line_feeds_blanks (n : nat) : line_feeds (Strings.Repeat " " n) = 0.
Proof.
  induction n as [|n IH]; [reflexivity|].
  cbn [Strings.Repeat]. now rewrite line_feeds_append, IH.
Qed.

Lemma digit_numeral (n : N) : exists k, (k < 10)%N /\ Time.digit n = numeral k.
Proof.
  exists (n mod 10)%N. split; [|reflexivity].
  apply N.mod_upper_bound. discriminate.
Qed.

Lemma line_feeds_numeral (k : N) :
  (k < 10)%N -> line_feeds (String (numeral k) EmptyString) = 0.
Proof.
  intros Hk.
  assert (k = 0 \/ k = 1 \/ k = 2 \/ k = 3 \/ k = 4 \/ k = 5 \/ k = 6 \/ k = 7
          \/ k = 8 \/ k = 9)%N as H by lia.
  repeat (destruct H as [->|H]; [reflexivity|]). now rewrite H.
Qed.

Lemma line_feeds_two_digits (n : N) : line_feeds (Time.two_digits n) = 0.
Proof.
  unfold Time.two_digits.
  destruct (digit_numeral (n / 10)) as (k1 & Hk1 & ->).
  destruct (digit_numeral n) as (k2 & Hk2 & ->).
  change (String (numeral k1) (String (numeral k2) EmptyString))
    with (String (numeral k1) EmptyString +:+ String (numeral k2) EmptyString).
  now rewrite line_feeds_append, !line_feeds_numeral.
Qed.

Lemma line_feeds_Format (t : N) : line_feeds (Time.Format t) = 0.
Proof.
  unfold Time.Format. cbv zeta.
  now rewrite !line_feeds_append, !line_feeds_two_digits.
Qed.

Lemma two_digits_numerals (n : N) :
  (n < 100)%N ->
  Time.two_digits n = String (numeral (n / 10)) (String (numeral (n mod 10)) EmptyString).
Proof.
  intros Hn. unfold Time.two_digits, Time.digit, numeral.
  rewrite (N.mod_small (n / 10) 10); [reflexivity|].
  apply N.Div0.div_lt_upper_bound. lia.
Qed.

(** The layout [15:04:05] at [h] hours, [mi] minutes, [sec] seconds and [ns]
    nanoseconds past midnight. *)
Lemma Format_clock (h mi sec ns : N) :
  (h < 24)%N -> (mi < 60)%N -> (sec < 60)%N -> (ns < Time.Second)%N ->
  Time.Format (((h * 60 + mi) * 60 + sec) * Time.Second + ns) = clock_text h mi sec.
Proof.
  intros Hh Hmi Hsec Hns. unfold Time.Format. cbv zeta.
  assert ((((h * 60 + mi) * 60 + sec) * Time.Second + ns) / Time.Second =
          (h * 60 + mi) * 60 + sec)%N as ->.
  { symmetry. apply N.div_unique with ns; [exact Hns | lia]. }
  assert (((h * 60 + mi) * 60 + sec) / 3600 = h)%N as ->.
  { symmetry. apply N.div_unique with (mi * 60 + sec)%N; lia. }
  assert (((h * 60 + mi) * 60 + sec) / 60 = h * 60 + mi)%N as ->.
  { symmetry. apply N.div_unique with sec; lia. }
  assert (((h * 60 + mi) * 60 + sec) mod 60 = sec)%N as ->.
  { symmetry. apply N.mod_unique with (h * 60 + mi)%N; lia. }
  assert ((h * 60 + mi) mod 60 = mi)%N as ->.
  { symmetry. apply N.mod_unique with h; lia. }
  rewrite (N.mod_small h 24) by exact Hh.
  rewrite !two_digits_numerals by lia. reflexivity.
Qed.

(** A type with a line feed in it is printed on two lines, and a type of more
    than thirty runes is printed whole, which moves the identifier to the
    right: here by five runes, to the forty-ninth column. *)
Lemma compact_rendering_is_not_one_line_of_fixed_width :
  let broken := Map {[ "type" := VString ("payment" +:+ Strings.LF +:+ "created") ]} in
  let long := Map {[ "type" := VString "subscription.invoice.payment_failed";
                     "data" := VMap {[ "id" := VString "in_1" ]} ]} in
  (exists text, render false 0 broken = [Text text] /\ line_feeds text = 2)
  /\ render false 0 long =
       [Text ("[00:00:00] subscription.invoice.payment_failed  in_1" +:+ Strings.LF)]
  /\ Strings.RuneCountInString "[00:00:00] subscription.invoice.payment_failed  " = 48.
Proof.
  cbv zeta. split; [|split]; [|reflexivity|reflexivity].
  eexists. split; reflexivity.
Qed.

(** C7, as the code has it: an event that decodes and passes the filter is
    printed once.  The compact text is the time of day in brackets, the type
    followed by blanks up to thirty runes (a longer type is written whole),
    two blanks, the identifier (the string at [id] of the object at [data],
    or nothing) and a line feed; it has one line feed more than the type and
    the identifier have, so it is one line when they have none.  The verbose
    text is the time in brackets and the type on a line, then the indented
    payload and an empty line.  The time is written with two digits each for
    the hour, the minute and the second. *)
Theorem rendering_of_an_accepted_event
    (filterType : string) (t : N) (m : message) (ev : event) :
  Unmarshal m = Some ev ->
  filterType = EmptyString \/ occurs_in filterType (string_at (fields_of ev) "type") ->
  let ty := string_at (fields_of ev) "type" in
  let id := identifier_of (fields_of ev) in
  let stamp := "[" +:+ Time.Format t +:+ "] " in
  let column := ty +:+ Strings.Repeat " " (30 - Strings.RuneCountInString ty) in
  let line := stamp +:+ column +:+ "  " +:+ id +:+ Strings.LF in
  reader_turn (Listen false filterType) t (Frame m) = ([Rendered [Text line]], true)
  /\ reader_turn (Listen true filterType) t (Frame m) =
       ([Rendered [Text (stamp +:+ ty +:+ Strings.LF);
                   Indented ev;
                   Text (Strings.LF +:+ Strings.LF)]], true)
  /\ line_feeds line = 1 + line_feeds ty + line_feeds id
  /\ Strings.RuneCountInString column = Nat.max 30 (Strings.RuneCountInString ty)
  /\ (Strings.RuneCountInString ty <= 30 ->
      Strings.RuneCountInString (stamp +:+ column +:+ "  ") = 43)
  /\ (forall h mi sec ns,
        (h < 24)%N -> (mi < 60)%N -> (sec < 60)%N -> (ns < Time.Second)%N ->
        t = (((h * 60 + mi) * 60 + sec) * Time.Second + ns)%N ->
        stamp = "[" +:+ clock_text h mi sec +:+ "] ").
Proof.
  intros Hm Hpass. cbv zeta.
  assert (passes filterType (eventType ev) = true) as Hp
    by (rewrite eventType_fields; now apply passes_spec).
  split; [|split; [|split; [|split; [|split]]]].
  - cbn [reader_turn]. rewrite Hm, Hp. unfold render, Strings.left_justified.
    now rewrite eventType_fields, compact_id_fields, !append_assoc.
  - cbn [reader_turn]. rewrite Hm, Hp. unfold render.
    now rewrite eventType_fields, !append_assoc.
  - rewrite !line_feeds_append, line_feeds_Format, line_feeds_blanks.
    change (line_feeds "[") with 0. change (line_feeds "] ") with 0.
    change (line_feeds "  ") with 0. change (line_feeds Strings.LF) with 1. lia.
  - apply left_justified_width.
  - intros Hle.
    assert (forall n, Strings.RuneCountInString (Time.two_digits n) = 2) as Hd.
    { intros n. unfold Time.two_digits.
      destruct (digit_numeral (n / 10)) as (k1 & Hk1 & ->).
      destruct (digit_numeral n) as (k2 & Hk2 & ->).
      assert (forall k, (k < 10)%N -> Strings.continuation (numeral k) = false) as Hk.
      { intros k Hlt.
        assert (k = 0 \/ k = 1 \/ k = 2 \/ k = 3 \/ k = 4 \/ k = 5 \/ k = 6 \/ k = 7
                \/ k = 8 \/ k = 9)%N as H by lia.
        repeat (destruct H as [->|H]; [reflexivity|]). now rewrite H. }
      cbn [Strings.RuneCountInString]. now rewrite !Hk. }
    rewrite !RuneCount_append, RuneCount_blanks. unfold Time.Format. cbv zeta.
    rewrite !RuneCount_append, !Hd.
    change (Strings.RuneCountInString "[") with 1.
    change (Strings.RuneCountInString "] ") with 2.
    change (Strings.RuneCountInString ":") with 1.
    change (Strings.RuneCountInString "  ") with 2. lia.
  - intros h mi sec ns Hh Hmi Hsec Hns ->. now rewrite Format_clock.
Qed.

Lemma rendering_of_an_accepted_event_witness :
  reader_turn (Listen false "payment") 3723000000005
              (Frame (Samples.typed "payment.created" "p_1")) =
    ([Rendered [Text ("[01:02:03] payment.created                 p_1" +:+ Strings.LF)]],
     true)
  /\ "[" +:+ Time.Format 3723000000005 +:+ "] " = "[01:02:03] ".
Proof.
  assert ("payment" = EmptyString
          \/ occurs_in "payment"
               (string_at
                  (fields_of (Map {[ "type" := VString "payment.created";
                                     "data" := VMap {[ "id" := VString "p_1" ]} ]}))
                  "type")) as Hpass
    by (right; now exists EmptyString, ".created").
  destruct (rendering_of_an_accepted_event "payment" 3723000000005%N
              (Samples.typed "payment.created" "p_1")
              (Map {[ "type" := VString "payment.created";
                      "data" := VMap {[ "id" := VString "p_1" ]} ]})
              eq_refl Hpass) as (Hline & _ & _ & _ & _ & Hclock).
  split.
  - exact Hline.
  - apply (Hclock 1 2 3 5)%N; reflexivity.
Defined.

(** C9: the identifier of the compact line is not empty only when the event
    has a field [data] that is an object with a field [id] that is a string,
    and then it is that string; an [id] of any other kind leaves the
    identifier empty. *)
Theorem identifier_only_from_a_string_id (ev : event) :
  (compact_id ev <> EmptyString ->
   exists fields data,
     ev = Map fields /\ fields !! "data" = Some (VMap data)
     /\ data !! "id" = Some (VString (compact_id ev)))
  /\ (forall fields data v,
        ev = Map fields -> fields !! "data" = Some (VMap data) ->
        data !! "id" = Some v -> (forall s, v <> VString s) ->
        compact_id ev = EmptyString)
  /\ (forall t, render false t ev =
        [Text ("[" +:+ Time.Format t +:+ "] " +:+
               Strings.left_justified 30 (eventType ev) +:+ "  " +:+
               compact_id ev +:+ Strings.LF)]).
Proof.
  split; [|split].
  - unfold compact_id, index.
    destruct ev as [|fields]; [cbn; congruence|].
    destruct (fields !! "data") as [[| | | | |data]|] eqn:Hdata; cbn; try congruence.
    destruct (data !! "id") as [[| | |s| |]|] eqn:Hid; cbn; try congruence.
    intros _. now exists fields, data.
  - intros fields data v -> Hdata Hid Hv.
    unfold compact_id, index. rewrite Hdata. cbn. rewrite Hid. cbn.
    destruct v; try reflexivity. now destruct (Hv s).
  - reflexivity.
Qed.

Lemma identifier_only_from_a_string_id_witness :
  compact_id (Map {[ "type" := VString "payment.created";
                     "data" := VMap {[ "id" := VNumber "7" ]} ]}) = EmptyString.
Proof.
  refine (proj1 (proj2 (identifier_only_from_a_string_id _))
            {[ "type" := VString "payment.created";
               "data" := VMap {[ "id" := VNumber "7" ]} ]}
            {[ "id" := VNumber "7" ]} (VNumber "7") _ _ _ _).
  - reflexivity.
  - reflexivity.
  - reflexivity.
  - intros s; discriminate.
Defined.

(** C10: a frame that decodes to an event whose [type] is missing or is not
    a string is printed with an empty type when there is no filter, in either
    mode, and is dropped whenever the filter is not empty. *)
Theorem event_without_a_string_type
    (verbose : bool) (t : N) (m : message) (ev : event) :
  Unmarshal m = Some ev ->
  as_string (index ev "type") = None ->
  eventType ev = EmptyString
  /\ reader_turn (Listen verbose EmptyString) t (Frame m) =
       ([Rendered (render verbose t ev)], true)
  /\ render false t ev =
       [Text ("[" +:+ Time.Format t +:+ "] " +:+ Strings.Repeat " " 30 +:+ "  " +:+
              compact_id ev +:+ Strings.LF)]
  /\ render true t ev =
       [Text ("[" +:+ Time.Format t +:+ "] " +:+ Strings.LF);
        Indented ev;
        Text (Strings.LF +:+ Strings.LF)]
  /\ (forall filterType, filterType <> EmptyString ->
        reader_turn (Listen verbose filterType) t (Frame m) = ([], true)).
Proof.
  intros Hm Hty.
  assert (eventType ev = EmptyString) as He by (unfold eventType; now rewrite Hty).
  split; [exact He|]. split; [|split; [|split]].
  - cbn [reader_turn]. rewrite Hm, He. reflexivity.
  - unfold render. rewrite He. reflexivity.
  - unfold render. rewrite He. reflexivity.
  - intros filterType Hne. cbn [reader_turn]. rewrite Hm, He.
    unfold passes. rewrite (Contains_in_empty _ Hne).
    destruct (String.eqb filterType EmptyString) eqn:Heq; [|reflexivity].
    apply eqb_empty in Heq. contradiction.
Qed.

Lemma event_without_a_string_type_witness :
  reader_turn (Listen false EmptyString) 0 (Frame (Samples.untyped "p_1")) =
    ([Rendered [Text ("[00:00:00]                                 p_1" +:+ Strings.LF)]],
     true)
  /\ reader_turn (Listen false "payment") 0 (Frame (Samples.untyped "p_1")) = ([], true).
Proof.
  pose proof (event_without_a_string_type false 0%N (Samples.untyped "p_1")
                (Map {[ "data" := VMap {[ "id" := VString "p_1" ]} ]})
                eq_refl eq_refl) as (_ & Hshown & _ & _ & Hdropped).
  split.
  - exact Hshown.
  - apply Hdropped. discriminate.
Defined.

(** ** The session *)

Lemma rendered_app (a b : list output) : rendered (a ++ b) = rendered a ++ rendered b.
Proof. apply omap_app. Qed.

Lemma duration_cons (e : stimulus) (es : list stimulus) :
  duration (e :: es) = (match e with Elapse d => d | _ => 0 end + duration es)%N.
Proof. now destruct e. Qed.

(** Case analysis on one step: open the state and the stimulus, and compute
    what the step inspects. *)
Ltac step_cases s e :=
  destruct s as [clock finished signal phase printed sent latched];
  destruct e as [m|err werr| |werr| |d|appData werr|message werr];
  cbn [step receive ReadMessage reader_step take_interrupt take_done elapse move print
       coordinator reader_done pending now stdout wire writeErr fst snd] in *;
  subst.

Ltac split_deadline :=
  match goal with
  | |- context [N.leb ?a ?b] => destruct (N.leb a b) eqn:?
  end.

(** *** Writes to the connection *)

(** A write changes nothing but the frames written and the error kept. *)
Lemma write_frame_tasks (s : session) (frame : outbound) (write : option error) :
  now (fst (write_frame s frame write)) = now s
  /\ reader_done (fst (write_frame s frame write)) = reader_done s
  /\ pending (fst (write_frame s frame write)) = pending s
  /\ coordinator (fst (write_frame s frame write)) = coordinator s
  /\ stdout (fst (write_frame s frame write)) = stdout s.
Proof.
  unfold write_frame. destruct (refusal s); [cbn; auto|].
  destruct write; [cbn; auto|]. destruct (is_close frame); cbn; auto.
Qed.

Lemma write_frame_refused
    (s : session) (frame : outbound) (write : option error) (err : error) :
  refusal s = Some err -> write_frame s frame write = (s, Some err).
Proof. intros H. unfold write_frame. now rewrite H. Qed.

Lemma refusal_past_first_select (s : session) :
  coordinator s <> Running -> refusal s <> None.
Proof. unfold refusal. destruct (writeErr s), (coordinator s); congruence. Qed.

Lemma refusal_none (s : session) :
  refusal s = None <-> writeErr s = None /\ coordinator s = Running.
Proof.
  unfold refusal. destruct (writeErr s), (coordinator s);
    split; try discriminate; try (intros [? ?]; discriminate); auto.
Qed.

(** A write adds the frame or nothing; it adds nothing when the connection
    refuses it; and it leaves an error behind unless it has written a frame
    that is no close frame. *)
Lemma write_frame_wire (s : session) (frame : outbound) (write : option error) :
  (wire (fst (write_frame s frame write)) = wire s
   /\ refusal (fst (write_frame s frame write)) <> None
   /\ snd (write_frame s frame write) <> None)
  \/ (refusal s = None
      /\ wire (fst (write_frame s frame write)) = wire s ++ [frame]
      /\ snd (write_frame s frame write) = None
      /\ (if is_close frame
          then writeErr (fst (write_frame s frame write)) = Some ErrCloseSent
          else writeErr (fst (write_frame s frame write)) = writeErr s)).
Proof.
  unfold write_frame. destruct (refusal s) as [err|] eqn:Href.
  - left. cbn. rewrite Href. repeat split; discriminate.
  - apply refusal_none in Href as Hclear. destruct Hclear as [Hk Hc].
    destruct write as [err|].
    + left. cbn. unfold refusal. cbn. rewrite Hk. repeat split; discriminate.
    + right. split; [reflexivity|]. destruct (is_close frame); cbn; rewrite ?Hk; auto.
Qed.

Lemma ReadMessage_tasks (s : session) (e : stimulus) :
  now (fst (ReadMessage s e)) = now s
  /\ reader_done (fst (ReadMessage s e)) = reader_done s
  /\ pending (fst (ReadMessage s e)) = pending s
  /\ coordinator (fst (ReadMessage s e)) = coordinator s
  /\ stdout (fst (ReadMessage s e)) = stdout s.
Proof.
  destruct e as [m|err werr| |werr| |d|appData werr|message werr];
    cbn [ReadMessage handlePing handleProtocolError fst]; auto.
  - unfold failed_read, handleClose. destruct (Code err) as [code|]; auto.
    destruct (code =? CloseAbnormalClosure)%Z; auto. apply write_frame_tasks.
  - apply write_frame_tasks.
  - apply write_frame_tasks.
Qed.

Lemma ReadMessage_refused (s : session) (e : stimulus) :
  refusal s <> None -> fst (ReadMessage s e) = s.
Proof.
  intros Href. destruct (refusal s) as [refused|] eqn:Hr; [clear Href|congruence].
  destruct e as [m|err werr| |werr| |d|appData werr|message werr];
    cbn [ReadMessage handlePing handleProtocolError fst]; auto.
  - unfold failed_read, handleClose. destruct (Code err) as [code|]; auto.
    destruct (code =? CloseAbnormalClosure)%Z; auto.
    now rewrite (write_frame_refused _ _ _ _ Hr).
  - now rewrite (write_frame_refused _ _ _ _ Hr).
  - now rewrite (write_frame_refused _ _ _ _ Hr).
Qed.

(** A frame never ends the reader's loop, and an error always does. *)
Lemma reader_turn_frame_continues (cmd : command) (t : N) (m : message) :
  snd (reader_turn cmd t (Frame m)) = true.
Proof.
  destruct cmd as [verbose filterType|]; cbn [reader_turn]; [|reflexivity].
  destruct (Unmarshal m); [destruct (passes _ _)|]; reflexivity.
Qed.

Lemma reader_turn_failure_ends (cmd : command) (t : N) (err : error) :
  snd (reader_turn cmd t (Failure err)) = false.
Proof. now destruct cmd. Qed.

(** The notices among the printed lines are the control task's. *)
Lemma notices_app (a b : list output) : notices (a ++ b) = notices a ++ notices b.
Proof. apply List.filter_app. Qed.

Lemma notices_reader_turn (cmd : command) (t : N) (r : received) :
  notices (fst (reader_turn cmd t r)) = [].
Proof.
  destruct cmd as [verbose filterType|], r as [m|err]; cbn [reader_turn].
  - destruct (Unmarshal m); [destruct (passes _ _)|]; reflexivity.
  - destruct (IsUnexpectedCloseError _ _); reflexivity.
  - reflexivity.
  - reflexivity.
Qed.

Section Session.

Variable cmd : command.

Lemma run_app (es1 es2 : list stimulus) (s : session) :
  run cmd (es1 ++ es2) s = run cmd es2 (run cmd es1 s).
Proof. apply fold_left_app. Qed.

Lemma run_cons (e : stimulus) (es : list stimulus) (s : session) :
  run cmd (e :: es) s = run cmd es (step cmd s e).
Proof. reflexivity. Qed.

(** What the reader's goroutine does to a session whose connection refuses
    writes: nothing, or one turn of its loop. *)
Lemma receive_refused (s : session) (e : stimulus) :
  refusal s <> None ->
  receive cmd s e = s
  \/ exists r, reader_done s = false /\ receive cmd s e = reader_step cmd s r.
Proof.
  intros Href. unfold receive. destruct (reader_done s) eqn:Hd; [now left|].
  cbv zeta. rewrite (ReadMessage_refused s e Href).
  destruct (snd (ReadMessage s e)) as [r|]; [right; now exists r | now left].
Qed.

(** A stimulus of the reader leaves the control task, the clock and the channel
    [interrupt] as they are, and prints no notice. *)
Lemma receive_tasks (s : session) (e : stimulus) :
  now (receive cmd s e) = now s
  /\ pending (receive cmd s e) = pending s
  /\ coordinator (receive cmd s e) = coordinator s
  /\ notices (stdout (receive cmd s e)) = notices (stdout s).
Proof.
  unfold receive. destruct (reader_done s); [auto|]. cbv zeta.
  destruct (ReadMessage_tasks s e) as (Hn & _ & Hp & Hc & Ho).
  destruct (snd (ReadMessage s e)) as [r|]; [|rewrite Ho; auto].
  cbn [reader_step now pending coordinator stdout].
  rewrite notices_app, notices_reader_turn, app_nil_r, Ho. auto.
Qed.

(** Once [Run] has returned the control task stays where it is; nothing more
    is written, kept or announced. *)
Lemma done_step (s : session) (e : stimulus) (t : N) :
  coordinator s = Done t ->
  coordinator (step cmd s e) = Done t
  /\ wire (step cmd s e) = wire s
  /\ writeErr (step cmd s e) = writeErr s
  /\ notices (stdout (step cmd s e)) = notices (stdout s).
Proof.
  intros Hc.
  assert (refusal s <> None) as Href
    by (apply refusal_past_first_select; rewrite Hc; discriminate).
  assert (coordinator (receive cmd s e) = Done t
          /\ wire (receive cmd s e) = wire s
          /\ writeErr (receive cmd s e) = writeErr s
          /\ notices (stdout (receive cmd s e)) = notices (stdout s)) as Hreceive.
  { destruct (receive_refused s e Href) as [->|(r & _ & ->)]; [auto|].
    cbn [reader_step coordinator wire writeErr stdout].
    now rewrite notices_app, notices_reader_turn, app_nil_r. }
  destruct e as [m|err werr| |werr| |d|appData werr|message werr];
    try exact Hreceive; clear Hreceive Href;
    destruct s as [clock finished signal phase printed sent latched];
    cbn in Hc; subst phase; cbn; auto.
  destruct finished; auto.
Qed.

Lemma done_run (es : list stimulus) (s : session) (t : N) :
  coordinator s = Done t ->
  coordinator (run cmd es s) = Done t
  /\ wire (run cmd es s) = wire s
  /\ writeErr (run cmd es s) = writeErr s
  /\ notices (stdout (run cmd es s)) = notices (stdout s).
Proof.
  revert s; induction es as [|e es IH]; intros s Hc; [auto|].
  rewrite run_cons.
  destruct (done_step s e t Hc) as (Hc' & Hw & Hk & Hn).
  destruct (IH _ Hc') as (Hc'' & Hw' & Hk' & Hn').
  repeat split; congruence.
Qed.

(** While the command streams and the reader receives nothing but frames,
    the session prints what the reader's loop prints. *)
Lemma reader_in_session (ms : list message) (s : session) :
  reader_done s = false ->
  stdout (run cmd (map Receive ms) s) =
  stdout s ++ reader cmd (map (fun m => (now s, Frame m)) ms).
Proof.
  revert s; induction ms as [|m ms IH]; intros s Hr.
  - cbn. now rewrite app_nil_r.
  - cbn [map]. rewrite run_cons.
    assert (step cmd s (Receive m) = reader_step cmd s (Frame m)) as Hstep
      by (unfold step, receive; now rewrite Hr).
    pose proof (reader_turn_frame_continues cmd (now s) m) as Hgo.
    rewrite Hstep, IH by (cbn [reader_step reader_done]; now rewrite Hgo).
    cbn [reader reader_step stdout now].
    destruct (reader_turn cmd (now s) (Frame m)) as [printed continue].
    cbn in Hgo |- *. subst continue. now rewrite <- List.app_assoc.
Qed.

(** A reader that has returned stays so, and nothing more is rendered. *)
Lemma reader_gone_step (s : session) (e : stimulus) :
  reader_done s = true ->
  reader_done (step cmd s e) = true
  /\ rendered (stdout (step cmd s e)) = rendered (stdout s).
Proof.
  intros Hr.
  assert (receive cmd s e = s) as Hreceive by (unfold receive; now rewrite Hr).
  destruct e as [m|err werr| |werr| |d|appData werr|message werr];
    cbn [step]; rewrite ?Hreceive; auto.
  - unfold take_interrupt. destruct (coordinator s); auto.
    destruct (pending s); auto.
    match goal with
    | |- context [write_frame ?s0 ?f ?w] =>
        destruct (write_frame_tasks s0 f w) as (_ & Hd & _ & _ & Ho);
        destruct (snd (write_frame s0 f w))
    end; cbn [move print reader_done stdout] in *; rewrite Hd, ?Ho; cbn;
      rewrite ?rendered_app; destruct cmd; cbn; rewrite ?app_nil_r; auto.
  - unfold take_done. rewrite Hr.
    destruct (coordinator s), cmd; cbn; rewrite ?rendered_app; cbn;
      rewrite ?app_nil_r; auto.
  - unfold elapse. destruct (coordinator s); cbn; auto.
    split_deadline; cbn; auto.
Qed.

Lemma reader_gone_run (es : list stimulus) (s : session) :
  reader_done s = true -> rendered (stdout (run cmd es s)) = rendered (stdout s).
Proof.
  revert s; induction es as [|e es IH]; intros s Hr; [reflexivity|].
  rewrite run_cons. destruct (reader_gone_step s e Hr) as [Hr' Heq].
  now rewrite (IH _ Hr').
Qed.

(** One step of a control task that waits in its second [select], before the
    second is over: nothing is sent; either it still waits, and the second is
    still not over, or it has returned, by then at the latest and without
    printing; and if the reader has not returned, the return is the timer's. *)
Lemma closing_step (s : session) (e : stimulus) (since : N) :
  coordinator s = Closing since -> (now s < since + Time.Second)%N ->
  wire (step cmd s e) = wire s
  /\ writeErr (step cmd s e) = writeErr s
  /\ ((coordinator (step cmd s e) = Closing since
       /\ now (step cmd s e) = (now s + match e with Elapse d => d | _ => 0 end)%N
       /\ (now (step cmd s e) < since + Time.Second)%N)
      \/ (exists t, coordinator (step cmd s e) = Done t
            /\ (t <= since + Time.Second)%N
            /\ stdout (step cmd s e) = stdout s
            /\ (reader_done s = false -> t = (since + Time.Second)%N))).
Proof.
  intros Hc Hnow.
  assert (refusal s <> None) as Href
    by (apply refusal_past_first_select; rewrite Hc; discriminate).
  assert (wire (receive cmd s e) = wire s
          /\ writeErr (receive cmd s e) = writeErr s
          /\ coordinator (receive cmd s e) = Closing since
          /\ now (receive cmd s e) = (now s + 0)%N
          /\ (now (receive cmd s e) < since + Time.Second)%N) as Hreceive.
  { rewrite N.add_0_r.
    destruct (receive_refused s e Href) as [->|(r & _ & ->)]; cbn; auto. }
  destruct e as [m|err werr| |werr| |d|appData werr|message werr];
    try (destruct Hreceive as (Hw & Hk & Hrest); split; [exact Hw|];
         split; [exact Hk|]; left; exact Hrest);
    clear Hreceive Href;
    destruct s as [clock finished signal phase printed sent latched];
    cbn in Hc, Hnow; subst phase; cbn.
  - split; [reflexivity|]. split; [reflexivity|]. left. rewrite N.add_0_r. auto.
  - split; [reflexivity|]. split; [reflexivity|]. left. rewrite N.add_0_r. auto.
  - destruct finished; cbn; (split; [reflexivity|]; split; [reflexivity|]).
    + right. exists clock. repeat split; [lia | congruence].
    + left. rewrite N.add_0_r. auto.
  - destruct (N.leb (since + Time.Second) (clock + d)) eqn:Hd; cbn;
      (split; [reflexivity|]; split; [reflexivity|]).
    + right. exists (since + Time.Second)%N. repeat split. lia.
    + left. apply N.leb_gt in Hd. auto.
Qed.


Lemma closing_run (es : list stimulus) (s : session) (since : N) :
  coordinator s = Closing since -> (now s < since + Time.Second)%N ->
  wire (run cmd es s) = wire s
  /\ ((coordinator (run cmd es s) = Closing since
       /\ now (run cmd es s) = (now s + duration es)%N
       /\ (now (run cmd es s) < since + Time.Second)%N)
      \/ (exists t, coordinator (run cmd es s) = Done t
            /\ (t <= since + Time.Second)%N)).
Proof.
  revert s; induction es as [|e es IH]; intros s Hc Hnow.
  - cbn. split; [reflexivity|]. left. rewrite N.add_0_r. auto.
  - rewrite run_cons, duration_cons.
    destruct (closing_step s e since Hc Hnow)
      as (Hw & _ & [(Hc' & Hn' & Hlt')|(t & Hd & Ht & _)]).
    + destruct (IH _ Hc' Hlt') as [Hw' [(Hc'' & Hn'' & Hlt'')|Hdone]].
      * split; [congruence|]. left. repeat split; [assumption | lia | assumption].
      * split; [congruence|]. now right.
    + destruct (done_run es _ t Hd) as (Hd' & Hw' & _).
      split; [congruence|]. right. now exists t.
Qed.


(** Two sessions that differ at most in what the channel [interrupt] holds
    stay so, step by step, once the control task has left its first
    [select]. *)
Lemma observable_step (s1 s2 : session) (e : stimulus) :
  coordinator s1 <> Running -> observable s1 = observable s2 ->
  coordinator (step cmd s1 e) <> Running
  /\ observable (step cmd s1 e) = observable (step cmd s2 e).
Proof.
  intros Hc Ho.
  destruct s1 as [clock finished signal1 phase printed sent latched],
           s2 as [clock2 finished2 signal2 phase2 printed2 sent2 latched2].
  unfold observable in Ho. cbn in Ho, Hc. inversion Ho; subst; clear Ho.
  set (s1 := Session clock2 finished2 signal1 phase2 printed2 sent2 latched2).
  set (s2 := Session clock2 finished2 signal2 phase2 printed2 sent2 latched2).
  assert (refusal s1 = refusal s2) as Hsame by reflexivity.
  assert (refusal s1 <> None) as Href by now apply refusal_past_first_select.
  assert (coordinator (receive cmd s1 e) <> Running
          /\ observable (receive cmd s1 e) = observable (receive cmd s2 e)) as Hreceive.
  { destruct (refusal s1) as [refused|] eqn:Hr1; [clear Href|congruence].
    symmetry in Hsame.
    unfold receive. cbn [reader_done s1 s2].
    destruct finished2; [split; [exact Hc | reflexivity]|]. cbv zeta.
    rewrite (ReadMessage_refused s1 e), (ReadMessage_refused s2 e) by congruence.
    assert (snd (ReadMessage s1 e) = snd (ReadMessage s2 e)) as ->.
    { destruct e as [m|err werr| |werr| |d|appData werr|message werr];
        cbn [ReadMessage handlePing handleProtocolError snd]; try reflexivity.
      now rewrite (write_frame_refused _ _ _ _ Hr1), (write_frame_refused _ _ _ _ Hsame). }
    destruct (snd (ReadMessage s2 e)); split; try exact Hc; reflexivity. }
  destruct e as [m|err werr| |werr| |d|appData werr|message werr];
    try exact Hreceive; clear Hreceive Href Hsame; subst s1 s2;
    destruct phase2 as [|since|t]; try contradiction;
    cbn [step take_interrupt take_done elapse move print
         coordinator reader_done pending now stdout wire writeErr];
    try destruct finished2; cbn; try split_deadline; cbn;
    (split; [discriminate | reflexivity]).
Qed.

Lemma observable_run (es : list stimulus) (s1 s2 : session) :
  coordinator s1 <> Running -> observable s1 = observable s2 ->
  observable (run cmd es s1) = observable (run cmd es s2).
Proof.
  revert s1 s2; induction es as [|e es IH]; intros s1 s2 Hc Ho; [exact Ho|].
  rewrite !run_cons.
  destruct (observable_step s1 s2 e Hc Ho) as [Hc' Ho']. now apply IH.
Qed.

(** Past its first [select] the control task writes nothing, and neither do
    the handlers of the reader, whose writes are refused. *)
Lemma wire_after_first_select (es : list stimulus) (s : session) :
  coordinator s <> Running -> wire (run cmd es s) = wire s.
Proof.
  revert s; induction es as [|e es IH]; intros s Hc; [reflexivity|].
  rewrite run_cons.
  destruct (observable_step s s e Hc eq_refl) as [Hc' _].
  rewrite (IH _ Hc').
  destruct (coordinator s) as [|since|t] eqn:Hco; [contradiction| |].
  - assert (refusal s <> None) as Href
      by (apply refusal_past_first_select; rewrite Hco; discriminate).
    destruct e as [m|err werr| |werr| |d|appData werr|message werr]; cbn [step];
      try match goal with
          | |- wire (receive cmd s ?e) = _ =>
              destruct (receive_refused s e Href) as [->|(r & _ & ->)]; reflexivity
          end.
    + reflexivity.
    + unfold take_interrupt. now rewrite Hco.
    + unfold take_done. rewrite Hco. now destruct (reader_done s).
    + unfold elapse. rewrite Hco. now split_deadline.
  - now destruct (done_step s e t Hco) as (_ & Hw & _).
Qed.

End Session.

Section Interrupt.

Variable cmd : command.

(** The interrupt case, from a first [select] whose channel holds a signal:
    either the close frame is written and the control task waits, or the write
    is refused or fails and the control task returns at once. *)
Lemma take_interrupt_cases (s : session) (write : option error) :
  coordinator s = Running -> pending s = true ->
  (writeErr s = None /\ write = None
   /\ coordinator (step cmd s (TakeInterrupt write)) = Closing (now s)
   /\ now (step cmd s (TakeInterrupt write)) = now s
   /\ reader_done (step cmd s (TakeInterrupt write)) = reader_done s
   /\ wire (step cmd s (TakeInterrupt write)) =
        wire s ++ [CloseMessage CloseNormalClosure EmptyString]
   /\ writeErr (step cmd s (TakeInterrupt write)) = Some ErrCloseSent
   /\ stdout (step cmd s (TakeInterrupt write)) = stdout s ++ [disconnecting cmd])
  \/ (exists err,
        (writeErr s = Some err \/ (writeErr s = None /\ write = Some err))
        /\ coordinator (step cmd s (TakeInterrupt write)) = Done (now s)
        /\ reader_done (step cmd s (TakeInterrupt write)) = reader_done s
        /\ wire (step cmd s (TakeInterrupt write)) = wire s
        /\ writeErr (step cmd s (TakeInterrupt write)) = Some err
        /\ stdout (step cmd s (TakeInterrupt write)) =
             stdout s ++ disconnecting cmd :: close_failed cmd err).
Proof.
  intros Hc Hp.
  destruct s as [clock finished signal phase printed sent latched].
  cbn in Hc, Hp. subst phase signal.
  cbn [step take_interrupt coordinator pending now reader_done stdout wire writeErr].
  unfold write_frame, refusal.
  cbn [coordinator writeErr].
  destruct latched as [err|]; [|destruct write as [err|]].
  - right. exists err. cbn. rewrite <- List.app_assoc. repeat split; auto.
  - right. exists err. cbn. rewrite <- List.app_assoc. repeat split; auto.
  - left. cbn. repeat split.
Qed.

End Interrupt.

(** Section 8 of the specification: the stream ends with an abnormal close
    after two frames; the reader reports it and returns, and the control task
    returns without sending a close frame. *)
Example abnormal_close_after_two_frames :
  let s := run (Listen false EmptyString)
               [Receive (Samples.typed "payment.created" "p_1");
                Elapse Time.Second;
                Receive (Samples.typed "user.login" "u_1");
                ReceiveFails Samples.abnormal_close None;
                TakeDone]
               Samples.fresh in
  coordinator s = Done Time.Second
  /\ wire s = []
  /\ stdout s =
       [Rendered [Text ("[00:00:00] payment.created                 p_1" +:+ Strings.LF)];
        Rendered [Text ("[00:00:01] user.login                      u_1" +:+ Strings.LF)];
        ReadError [Text ("❌ connection error: " +:+
                         "websocket: close 1006 (abnormal closure): unexpected EOF" +:+
                         Strings.LF)];
        Notice [Text ("Server closed connection" +:+ Strings.LF)]].
Proof. vm_compute. repeat split. Qed.

(** Section 8 of the specification: the interrupt arrives while the reader is
    blocked and nothing more comes; the control task sends the close frame,
    waits, and returns when the second is over. *)
Example interrupt_with_a_silent_peer :
  let s := run Connect
               [Sigint; TakeInterrupt None; Elapse 400000000; TakeDone; Elapse 700000000]
               Samples.fresh in
  coordinator s = Done Time.Second
  /\ reader_done s = false
  /\ wire s = [CloseMessage CloseNormalClosure EmptyString]
  /\ stdout s = [Notice [Text (Strings.LF +:+ "Disconnecting..." +:+ Strings.LF)]].
Proof. vm_compute. repeat split. Qed.

(** The library answers the peer without the command's doing: a ping with a
    pong that carries the same data, and a close frame with a close frame of
    the same code; after that nothing more is written, not even the close
    frame of the interrupt case, whose write returns [ErrCloseSent]. *)
Example the_peer_is_answered :
  let s := run Connect
               [ReceivePing "hb" None; ReceiveFails Samples.normal_close None;
                Sigint; TakeInterrupt None]
               Samples.fresh in
  coordinator s = Done 0
  /\ wire s = [PongMessage "hb"; CloseMessage CloseNormalClosure EmptyString]
  /\ stdout s =
       [ReadError [LogPrefix;
                   Text ("read-error: websocket: close 1000 (normal)" +:+ Strings.LF)];
        Notice [Text (Strings.LF +:+ "Disconnecting..." +:+ Strings.LF)];
        WriteError [LogPrefix; Text ("write-close: websocket: close sent" +:+ Strings.LF)]].
Proof. vm_compute. repeat split. Qed.

(** ** Rendering while the connection closes *)

(** After an interrupt the control task of [debug listen] has sent the close
    frame and waits; a frame that arrives then is rendered all the same.  So
    is a frame that the reader gets when the second is over and [Run] has
    returned. *)
Lemma frame_in_flight_is_rendered_while_closing :
  let cmd := Listen false EmptyString in
  let s := run cmd [Sigint; TakeInterrupt None] Samples.fresh in
  let late := run cmd [Elapse Time.Second] s in
  coordinator s = Closing 0
  /\ wire s = [CloseMessage CloseNormalClosure EmptyString]
  /\ rendered (stdout s) = []
  /\ rendered (stdout (step cmd s (Receive (Samples.typed "payment.created" "p_1")))) =
       [[Text ("[00:00:00] payment.created                 p_1" +:+ Strings.LF)]]
  /\ coordinator late = Done Time.Second
  /\ rendered (stdout (step cmd late (Receive (Samples.typed "payment.created" "p_1")))) =
       [[Text ("[00:00:01] payment.created                 p_1" +:+ Strings.LF)]].
Proof. vm_compute. repeat split. Qed.

(** C2, as the code has it: rendering ends with the reader and with nothing
    else.  Once the reader has returned no further event is rendered,
    whatever happens next.  As long as it has not, a frame that arrives goes
    through the reader's turn wherever the control task stands, in its first
    [select], in the wait after the close frame or past the return of [Run],
    and the control task stays where it is; in [debug listen] the line of an
    accepted frame is added to what has been rendered. *)
Theorem rendering_ends_with_the_reader (cmd : command) (s : session) :
  (forall es, reader_done s = true ->
     rendered (stdout (run cmd es s)) = rendered (stdout s))
  /\ (forall m, reader_done s = false ->
        stdout (step cmd s (Receive m)) =
          stdout s ++ fst (reader_turn cmd (now s) (Frame m))
        /\ coordinator (step cmd s (Receive m)) = coordinator s
        /\ reader_done (step cmd s (Receive m)) = false)
  /\ (forall verbose filterType m,
        cmd = Listen verbose filterType -> reader_done s = false ->
        accepted filterType m = true ->
        rendered (stdout (step cmd s (Receive m))) =
          rendered (stdout s) ++ [line_of verbose (now s) m])
  /\ (forall m, cmd = Connect -> reader_done s = false ->
        rendered (stdout (step cmd s (Receive m))) =
          rendered (stdout s) ++ [[Text ("< " +:+ bytes m +:+ Strings.LF)]]).
Proof.
  assert (forall m, reader_done s = false ->
            step cmd s (Receive m) = reader_step cmd s (Frame m)) as Hstep
    by (intros m Hr; unfold step, receive; now rewrite Hr).
  split; [|split; [|split]].
  - intros es Hr. now apply reader_gone_run.
  - intros m Hr. rewrite (Hstep m Hr). cbn [reader_step stdout coordinator reader_done].
    now rewrite reader_turn_frame_continues.
  - intros verbose filterType m -> Hr Hm. rewrite (Hstep m Hr).
    cbn [reader_step stdout]. now rewrite rendered_app, listen_turn_frame, Hm.
  - intros m -> Hr. rewrite (Hstep m Hr).
    cbn [reader_step stdout]. now rewrite rendered_app.
Qed.

Lemma rendering_ends_with_the_reader_witness :
  let cmd := Listen false EmptyString in
  let closing := run cmd [Sigint; TakeInterrupt None] Samples.fresh in
  let over := run cmd [Elapse Time.Second] closing in
  let ended := run cmd [ReceiveFails Samples.reset None] closing in
  let frame := Samples.typed "payment.created" "p_1" in
  rendered (stdout (step cmd closing (Receive frame))) =
    [[Text ("[00:00:00] payment.created                 p_1" +:+ Strings.LF)]]
  /\ coordinator over = Done Time.Second
  /\ rendered (stdout (step cmd over (Receive frame))) =
       [[Text ("[00:00:01] payment.created                 p_1" +:+ Strings.LF)]]
  /\ rendered (stdout (run cmd [Receive frame; Elapse Time.Second; Receive frame] ended)) = [].
Proof.
  cbv zeta. split; [|split; [|split]].
  - apply (proj1 (proj2 (proj2 (rendering_ends_with_the_reader
                                  (Listen false EmptyString)
                                  (run (Listen false EmptyString)
                                       [Sigint; TakeInterrupt None] Samples.fresh))))
             false EmptyString); reflexivity.
  - reflexivity.
  - apply (proj1 (proj2 (proj2 (rendering_ends_with_the_reader
                                  (Listen false EmptyString)
                                  (run (Listen false EmptyString) [Elapse Time.Second]
                                     (run (Listen false EmptyString)
                                          [Sigint; TakeInterrupt None] Samples.fresh)))))
             false EmptyString); reflexivity.
  - apply (proj1 (rendering_ends_with_the_reader
                    (Listen false EmptyString)
                    (run (Listen false EmptyString) [ReceiveFails Samples.reset None]
                       (run (Listen false EmptyString)
                            [Sigint; TakeInterrupt None] Samples.fresh)))).
    reflexivity.
Defined.

(** ** Bounded shutdown *)



(** ** A second interrupt *)

(** C8: when the control task has sent the close frame and waits, an
    interrupt more changes nothing that can be seen, now or later: the clock,
    the reader, the control task, the printed lines and the frames sent are
    the same with it and without it; no frame is sent after the close frame;
    and the exit status is the same. *)
Theorem second_interrupt_has_no_effect
    (cmd : command) (s : session) (since : N) (es : list stimulus) :
  coordinator s = Closing since ->
  observable (run cmd (Sigint :: es) s) = observable (run cmd es s)
  /\ stdout (run cmd (Sigint :: es) s) = stdout (run cmd es s)
  /\ wire (run cmd (Sigint :: es) s) = wire s
  /\ exit_status (Streaming (run cmd (Sigint :: es) s)) =
     exit_status (Streaming (run cmd es s)).
Proof.
  intros Hc.
  assert (coordinator (step cmd s Sigint) <> Running
          /\ observable (step cmd s Sigint) = observable s) as [Hc' Ho].
  { destruct s as [clock finished signal phase printed sent latched].
    cbn in Hc; subst phase. split; [discriminate | reflexivity]. }
  pose proof (observable_run cmd es _ _ Hc' Ho) as Hrun.
  rewrite run_cons. split; [exact Hrun|].
  remember (run cmd es (step cmd s Sigint)) as with_it eqn:Hwith.
  remember (run cmd es s) as without_it eqn:Hwithout.
  unfold observable in Hrun. injection Hrun as Hn Hr Hco Hout Hw Hk.
  split; [exact Hout|]. split.
  - rewrite Hw, Hwithout. apply wire_after_first_select. rewrite Hc. discriminate.
  - cbn. now rewrite Hco.
Qed.

Lemma second_interrupt_has_no_effect_witness :
  let cmd := Listen false EmptyString in
  let s := run cmd [Sigint; TakeInterrupt None] Samples.fresh in
  let es := [Receive (Samples.typed "payment.created" "p_1"); Elapse Time.Second] in
  coordinator s = Closing 0
  /\ observable (run cmd (Sigint :: es) s) = observable (run cmd es s).
Proof.
  cbv zeta. split; [reflexivity|].
  apply (second_interrupt_has_no_effect (Listen false EmptyString) _ 0%N).
  reflexivity.
Defined.

(** ** The end of the receive *)

(** [connect] logs a close with code 1000, the normal closure, as a read
    error. *)
Lemma connect_logs_a_normal_close :
  Code Samples.normal_close = Some CloseNormalClosure
  /\ reader_turn Connect 0 (Failure Samples.normal_close) =
       ([ReadError [LogPrefix;
                    Text ("read-error: websocket: close 1000 (normal)" +:+ Strings.LF)]],
        false).
Proof. split; reflexivity. Qed.

(** C6, as the code has it: when the receive fails, the reader of
    [debug listen] prints an error line if the error is a close with a code
    other than 1000 (normal closure) and 1001 (going away), and prints nothing
    if it is a close with one of these codes or is not a close error at all;
    the reader of [connect] logs every error of the receive.  Both readers
    return. *)
Theorem report_of_a_failed_receive
    (verbose : bool) (filterType : string) (t : N) (err : error) :
  ((exists c, Code err = Some c /\ c <> CloseNormalClosure /\ c <> CloseGoingAway) ->
   reader_turn (Listen verbose filterType) t (Failure err) =
     ([ReadError [Text ("❌ connection error: " +:+ Error err +:+ Strings.LF)]], false))
  /\ (Code err = None \/ Code err = Some CloseNormalClosure
      \/ Code err = Some CloseGoingAway ->
      reader_turn (Listen verbose filterType) t (Failure err) = ([], false))
  /\ reader_turn Connect t (Failure err) =
       ([ReadError [LogPrefix; Text ("read-error: " +:+ Error err +:+ Strings.LF)]],
        false).
Proof.
  unfold reader_turn, IsUnexpectedCloseError, CloseNormalClosure, CloseGoingAway.
  split; [|split; [|reflexivity]].
  - intros (c & -> & Hn & Hg). cbn.
    destruct (Z.eqb_spec c 1001); [contradiction|].
    destruct (Z.eqb_spec c 1000); [contradiction|]. reflexivity.
  - intros [->|[->| ->]]; reflexivity.
Qed.

Lemma report_of_a_failed_receive_witness :
  reader_turn (Listen false EmptyString) 0 (Failure Samples.abnormal_close) =
    ([ReadError [Text ("❌ connection error: " +:+
                       "websocket: close 1006 (abnormal closure): unexpected EOF" +:+
                       Strings.LF)]], false)
  /\ reader_turn (Listen false EmptyString) 0 (Failure Samples.normal_close) = ([], false)
  /\ reader_turn (Listen false EmptyString) 0 (Failure Samples.reset) = ([], false).
Proof.
  split; [|split].
  - apply (proj1 (report_of_a_failed_receive false EmptyString 0%N Samples.abnormal_close)).
    exists 1006%Z. repeat split; discriminate.
  - apply (proj1 (proj2 (report_of_a_failed_receive false EmptyString 0%N
                           Samples.normal_close))).
    right. left. reflexivity.
  - apply (proj1 (proj2 (report_of_a_failed_receive false EmptyString 0%N Samples.reset))).
    left. reflexivity.
Defined.

(** ** Exit status *)

(** [debug listen] with an API key, and a handshake that fails: the command
    reports the failure and returns, and the process ends with status 0. *)
Lemma listen_exits_zero_when_the_handshake_fails :
  listen_start "sk_test" EmptyString EmptyString EmptyString (Some Samples.refused) 0 =
    Returned
      [Notice [Text ("🔌 Connecting to ws://localhost:8089/v1/events/stream?api_key=sk_test..."
                     +:+ Strings.LF)];
       StartError [Text ("❌ Failed to connect: " +:+
                         "dial tcp 127.0.0.1:8089: connect: connection refused" +:+
                         Strings.LF)]]
  /\ exit_status
       (listen_start "sk_test" EmptyString EmptyString EmptyString
                     (Some Samples.refused) 0) = Some 0%Z.
Proof. split; reflexivity. Qed.

(** C3, as the code has it: when the handshake fails, [connect] exits with
    status 1, and [debug listen] returns, which ends the process with status
    0; and either command, once it has taken an interrupt, has returned when a
    second has passed, and the process ends with status 0. *)
Theorem exit_status_of_the_commands :
  (forall args trigger parse u err write t,
     parse (serverURL args) = inl u ->
     exit_status (connect_start args trigger parse (Some err) write t) = Some 1%Z)
  /\ (forall api_key current_zone api_url zone_flag err t,
        api_key <> EmptyString ->
        exit_status
          (listen_start api_key current_zone api_url zone_flag (Some err) t) = Some 0%Z)
  /\ (forall cmd s write es,
        coordinator s = Running -> pending s = true ->
        (Time.Second <= duration es)%N ->
        exit_status (after cmd (TakeInterrupt write :: es) (Streaming s)) = Some 0%Z).
Proof.
  split; [|split].
  - intros args trigger parse u err write t Hu.
    unfold connect_start. now rewrite Hu.
  - intros api_key current_zone api_url zone_flag err t Hk.
    unfold listen_start.
    destruct (String.eqb api_key EmptyString) eqn:Heq; [|reflexivity].
    apply eqb_empty in Heq. contradiction.
  - intros cmd s write es Hc Hp Hes.
    cbn [after]. rewrite run_cons.
    destruct (take_interrupt_cases cmd s write Hc Hp)
      as [(_ & _ & Hcl & Hn & _)|(err & _ & Hd & _)].
    + assert (now (step cmd s (TakeInterrupt write)) < now s + Time.Second)%N as Hlt
        by (rewrite Hn; unfold Time.Second; lia).
      destruct (closing_run cmd es _ (now s) Hcl Hlt)
        as [_ [(_ & Hn' & Hlt')|(t & Hd & _)]].
      * rewrite Hn', Hn in Hlt'. lia.
      * unfold exit_status. now rewrite Hd.
    + destruct (done_run cmd es _ (now s) Hd) as (Hd' & _).
      unfold exit_status. now rewrite Hd'.
Qed.

Lemma exit_status_of_the_commands_witness :
  exit_status (connect_start [] EmptyString inl (Some Samples.refused) None 0) = Some 1%Z
  /\ exit_status
       (listen_start "sk_test" EmptyString EmptyString EmptyString
                     (Some Samples.refused) 0) = Some 0%Z
  /\ exit_status
       (after Connect [TakeInterrupt None; Elapse Time.Second]
              (Streaming (step Connect Samples.fresh Sigint))) = Some 0%Z.
Proof.
  destruct exit_status_of_the_commands as (Hconnect & Hlisten & Hinterrupt).
  split; [|split].
  - now apply (Hconnect [] EmptyString inl "ws://localhost:8080/ws").
  - apply Hlisten. discriminate.
  - apply Hinterrupt; [reflexivity | reflexivity | vm_compute; discriminate].
Defined.

(** * Further properties *)

(** ** The control task *)

Section Control.

Variable cmd : command.

(** What a stimulus of the control task does to the reader and to the printed
    lines: the reader is left alone, and what is printed is no rendered event
    and no report of a receive error. *)
Lemma control_step_prints (s : session) (e : stimulus) :
  match e with
  | Sigint | TakeInterrupt _ | TakeDone | Elapse _ => true
  | _ => false
  end = true ->
  reader_done (step cmd s e) = reader_done s
  /\ exists lines,
       stdout (step cmd s e) = stdout s ++ lines
       /\ read_errors lines = [] /\ rendered lines = [].
Proof.
  intros He.
  destruct e as [m|err werr| |werr| |d|appData werr|message werr];
    try discriminate He; cbn [step].
  - split; [reflexivity|]. exists []. now rewrite app_nil_r.
  - destruct (coordinator s) eqn:Hc;
      [destruct (pending s) eqn:Hp|..];
      try solve [unfold take_interrupt; rewrite Hc, ?Hp;
                 split; [reflexivity|]; exists []; now rewrite app_nil_r].
    destruct (take_interrupt_cases cmd s werr Hc Hp)
      as [(_ & _ & _ & _ & Hr & _ & _ & Ho)|(err & _ & _ & Hr & _ & _ & Ho)];
      cbn [step] in Hr, Ho; rewrite Hr, Ho; (split; [reflexivity|]).
    + exists [disconnecting cmd]. now destruct cmd.
    + exists (disconnecting cmd :: close_failed cmd err). now destruct cmd.
  - unfold take_done. destruct (reader_done s) eqn:Hr;
      [|split; [exact Hr|]; exists []; now rewrite app_nil_r].
    destruct (coordinator s); cbn; (split; [exact Hr|]).
    + exists (reader_finished cmd). now destruct cmd.
    + exists []. now rewrite app_nil_r.
    + exists []. now rewrite app_nil_r.
  - unfold elapse. destruct (coordinator s); try split_deadline; cbn;
      (split; [reflexivity|]); exists []; now rewrite app_nil_r.
Qed.

Lemma rank_step (s : session) (e : stimulus) :
  rank (coordinator s) <= rank (coordinator (step cmd s e))
  /\ (forall since, coordinator s = Closing since ->
        coordinator (step cmd s e) = Closing since
        \/ exists t, coordinator (step cmd s e) = Done t).
Proof.
  destruct e as [m|err werr| |werr| |d|appData werr|message werr]; cbn [step];
    try match goal with
        | |- context [receive cmd s ?e] =>
            destruct (receive_tasks cmd s e) as (_ & _ & -> & _); split; [lia | auto]
        end.
  - cbn. split; [lia | auto].
  - destruct (coordinator s) eqn:Hc;
      [destruct (pending s) eqn:Hp|..];
      try solve [unfold take_interrupt; rewrite Hc, ?Hp; rewrite Hc; split; [lia | auto]].
    destruct (take_interrupt_cases cmd s werr Hc Hp)
      as [(_ & _ & Hco & _)|(err & _ & Hco & _)];
      cbn [step] in Hco; rewrite Hco; cbn; (split; [lia | discriminate]).
  - unfold take_done. destruct (reader_done s); [|split; [lia | auto]].
    destruct (coordinator s) eqn:Hc; cbn; rewrite ?Hc; (split; [cbn; lia|]);
      try discriminate; eauto.
  - unfold elapse. destruct (coordinator s) eqn:Hc; cbn; rewrite ?Hc;
      try (split; [cbn; lia | auto]).
    split_deadline; cbn; rewrite ?Hc; (split; [cbn; lia|]); eauto.
Qed.

Lemma rank_run (es : list stimulus) (s : session) :
  rank (coordinator s) <= rank (coordinator (run cmd es s))
  /\ (forall since, coordinator s = Closing since ->
        coordinator (run cmd es s) = Closing since
        \/ exists t, coordinator (run cmd es s) = Done t).
Proof.
  revert s; induction es as [|e es IH]; intros s.
  - cbn. split; [lia | auto].
  - rewrite run_cons.
    destruct (rank_step s e) as [Hle Hcl], (IH (step cmd s e)) as [Hle' Hcl'].
    split; [lia|]. intros since Hs.
    destruct (Hcl since Hs) as [Hc|[t Ht]].
    + now apply Hcl'.
    + right. exists t. now destruct (done_run cmd es _ t Ht) as (Hd & _).
Qed.

(** *** What is announced *)

(** The notices printed, by where the control task stands, in a session that
    started with the notices [told] printed. *)
Definition announced (told : list output) (s : session) : Prop :=
  match coordinator s with
  | Running => notices (stdout s) = told
  | Closing _ => notices (stdout s) = told ++ [disconnecting cmd]
  | Done _ =>
      notices (stdout s) = told ++ reader_finished cmd
      \/ notices (stdout s) = told ++ [disconnecting cmd]
  end.

Lemma notices_close_failed (err : error) : notices (close_failed cmd err) = [].
Proof. now destruct cmd. Qed.

Lemma notices_reader_finished : notices (reader_finished cmd) = reader_finished cmd.
Proof. now destruct cmd. Qed.

Lemma notices_disconnecting : notices [disconnecting cmd] = [disconnecting cmd].
Proof. now destruct cmd. Qed.

Lemma announced_step (told : list output) (s : session) (e : stimulus) :
  announced told s -> announced told (step cmd s e).
Proof.
  unfold announced.
  destruct e as [m|err werr| |werr| |d|appData werr|message werr]; cbn [step];
    try match goal with
        | |- context [receive cmd s ?e] =>
            destruct (receive_tasks cmd s e) as (_ & _ & -> & ->); auto
        end.
  - auto.
  - destruct (coordinator s) eqn:Hc;
      [destruct (pending s) eqn:Hp|..];
      try solve [unfold take_interrupt; rewrite Hc, ?Hp; rewrite Hc; auto].
    intros Hn.
    destruct (take_interrupt_cases cmd s werr Hc Hp)
      as [(_ & _ & Hco & _ & _ & _ & _ & Ho)|(err & _ & Hco & _ & _ & _ & Ho)];
      cbn [step] in Hco, Ho; rewrite Hco, Ho.
    + now rewrite notices_app, notices_disconnecting, Hn.
    + right. change (disconnecting cmd :: close_failed cmd err)
        with ([disconnecting cmd] ++ close_failed cmd err).
      now rewrite !notices_app, notices_disconnecting, notices_close_failed,
        app_nil_r, Hn.
  - unfold take_done. destruct (reader_done s); [|auto].
    destruct (coordinator s) eqn:Hc; cbn; rewrite ?Hc; auto.
    intros Hn. left. now rewrite notices_app, notices_reader_finished, Hn.
  - unfold elapse. destruct (coordinator s) eqn:Hc; cbn; rewrite ?Hc; auto.
    split_deadline; cbn; auto.
Qed.

Lemma announced_run (told : list output) (es : list stimulus) (s : session) :
  announced told s -> announced told (run cmd es s).
Proof.
  revert s; induction es as [|e es IH]; intros s H; [exact H|].
  rewrite run_cons. apply IH. now apply announced_step.
Qed.

(** *** What is written *)

Lemma answer_kind (e : stimulus) (frame : outbound) :
  answer e = Some frame -> is_pong frame = true \/ is_close frame = true.
Proof.
  destruct e as [m|err werr| |werr| |d|appData werr|message werr];
    cbn [answer]; try discriminate.
  - destruct (Code err) as [code|]; [|discriminate].
    destruct (code =? CloseAbnormalClosure)%Z; [discriminate|].
    intros [= <-]. right. now destruct (code =? CloseNoStatusReceived)%Z.
  - intros [= <-]. now left.
  - intros [= <-]. now right.
Qed.

(** What [ReadMessage] writes: nothing, or the answer to what has arrived, and
    that only when the connection takes the write. *)
Lemma ReadMessage_writes (s : session) (e : stimulus) :
  (wire (fst (ReadMessage s e)) = wire s
   /\ (refusal s <> None -> refusal (fst (ReadMessage s e)) <> None))
  \/ (exists frame,
        refusal s = None /\ answer e = Some frame
        /\ wire (fst (ReadMessage s e)) = wire s ++ [frame]
        /\ (is_close frame = true -> refusal (fst (ReadMessage s e)) <> None)).
Proof.
  assert (forall frame write,
            answer e = Some frame ->
            (wire (fst (write_frame s frame write)) = wire s
             /\ (refusal s <> None -> refusal (fst (write_frame s frame write)) <> None))
            \/ (exists frame',
                  refusal s = None /\ answer e = Some frame'
                  /\ wire (fst (write_frame s frame write)) = wire s ++ [frame']
                  /\ (is_close frame' = true ->
                      refusal (fst (write_frame s frame write)) <> None))) as Hwrite.
  { intros frame write Ha.
    destruct (write_frame_wire s frame write)
      as [(Hw & Hr & _)|(Hr & Hw & _ & Hk)]; [left; auto|].
    right. exists frame. repeat split; auto.
    intros Hclose. rewrite Hclose in Hk. unfold refusal. now rewrite Hk. }
  destruct e as [m|err werr| |werr| |d|appData werr|message werr];
    cbn [ReadMessage handlePing handleProtocolError fst]; auto.
  unfold failed_read, handleClose. cbn [answer] in Hwrite |- *.
  destruct (Code err) as [code|]; [|auto].
  destruct (code =? CloseAbnormalClosure)%Z; [auto|].
  now apply (Hwrite (FormatCloseMessage code EmptyString) werr).
Qed.

(** What one step writes: nothing; or the library's answer to what has
    arrived; or the close frame of the interrupt case. *)
Lemma step_writes (s : session) (e : stimulus) :
  (wire (step cmd s e) = wire s
   /\ (refusal s <> None -> refusal (step cmd s e) <> None)
   /\ (forall since, coordinator (step cmd s e) = Closing since ->
         coordinator s = Closing since))
  \/ (exists frame,
        refusal s = None
        /\ wire (step cmd s e) = wire s ++ [frame]
        /\ ((answer e = Some frame
             /\ coordinator (step cmd s e) = Running
             /\ (is_close frame = true -> refusal (step cmd s e) <> None))
            \/ (frame = CloseMessage CloseNormalClosure EmptyString
                /\ pending s = true
                /\ exists since, coordinator (step cmd s e) = Closing since))).
Proof.
  assert (forall e',
            (wire (receive cmd s e') = wire s
             /\ (refusal s <> None -> refusal (receive cmd s e') <> None)
             /\ (forall since, coordinator (receive cmd s e') = Closing since ->
                   coordinator s = Closing since))
            \/ (exists frame,
                  refusal s = None
                  /\ wire (receive cmd s e') = wire s ++ [frame]
                  /\ ((answer e' = Some frame
                       /\ coordinator (receive cmd s e') = Running
                       /\ (is_close frame = true -> refusal (receive cmd s e') <> None))
                      \/ (frame = CloseMessage CloseNormalClosure EmptyString
                          /\ pending s = true
                          /\ exists since,
                               coordinator (receive cmd s e') = Closing since))))
    as Hreceive.
  { intros e'. unfold receive. destruct (reader_done s); [left; auto|]. cbv zeta.
    destruct (ReadMessage_tasks s e') as (_ & _ & _ & Hco & _).
    assert (forall s', refusal s' = refusal (fst (ReadMessage s e')) ->
              wire s' = wire (fst (ReadMessage s e')) ->
              coordinator s' = coordinator s ->
              (wire s' = wire s
               /\ (refusal s <> None -> refusal s' <> None)
               /\ (forall since, coordinator s' = Closing since ->
                     coordinator s = Closing since))
              \/ (exists frame,
                    refusal s = None
                    /\ wire s' = wire s ++ [frame]
                    /\ ((answer e' = Some frame
                         /\ coordinator s' = Running
                         /\ (is_close frame = true -> refusal s' <> None))
                        \/ (frame = CloseMessage CloseNormalClosure EmptyString
                            /\ pending s = true
                            /\ exists since, coordinator s' = Closing since)))) as Hs'.
    { intros s' Hr' Hw' Hc'. rewrite Hr', Hw', Hc'.
      destruct (ReadMessage_writes s e') as [[Hw Hr]|(frame & Hr & Ha & Hw & Hk)].
      - left. auto.
      - right. exists frame. split; [exact Hr|]. split; [exact Hw|]. left.
        split; [exact Ha|]. split; [|exact Hk].
        now apply refusal_none in Hr. }
    destruct (snd (ReadMessage s e')) as [r|].
    - apply Hs'; [|reflexivity|exact Hco].
      unfold refusal. cbn [reader_step writeErr coordinator]. reflexivity.
    - apply Hs'; auto. }
  destruct e as [m|err werr| |werr| |d|appData werr|message werr]; cbn [step];
    try apply Hreceive; clear Hreceive.
  - left. cbn. auto.
  - destruct (coordinator s) eqn:Hc;
      [destruct (pending s) eqn:Hp|..];
      try solve [left; unfold take_interrupt; rewrite Hc, ?Hp; rewrite ?Hc; auto].
    destruct (take_interrupt_cases cmd s werr Hc Hp)
      as [(Hk & _ & Hco & _ & _ & Hw & _)|(err & _ & Hco & _ & Hw & _)];
      cbn [step] in Hco, Hw.
    + right. exists (CloseMessage CloseNormalClosure EmptyString).
      split; [now apply refusal_none|]. split; [exact Hw|]. right. eauto.
    + left. split; [exact Hw|]. split.
      * intros _. apply refusal_past_first_select. rewrite Hco. discriminate.
      * intros since. rewrite Hco. discriminate.
  - left. unfold take_done. destruct (reader_done s); [|auto].
    destruct (coordinator s) eqn:Hc; [| |rewrite Hc; auto].
    + split; [reflexivity|]. split; [|intros since; discriminate].
      intros _. apply refusal_past_first_select. discriminate.
    + split; [reflexivity|]. split; [|intros since'; discriminate].
      intros _. apply refusal_past_first_select. discriminate.
  - left. unfold elapse. destruct (coordinator s) eqn:Hc.
    + cbn. split; [reflexivity|]. split; [|intros since; discriminate].
      unfold refusal. cbn. now rewrite Hc.
    + split_deadline.
      * split; [reflexivity|]. split; [|intros since'; discriminate].
        intros _. apply refusal_past_first_select. discriminate.
      * cbn. split; [reflexivity|]. split; [|auto].
        intros _. apply refusal_past_first_select. cbn. discriminate.
    + cbn. split; [reflexivity|]. split; [|intros since; discriminate].
      intros _. apply refusal_past_first_select. cbn. discriminate.
Qed.

(** A connection that refuses writes stays so, and nothing more is written. *)
Lemma refused_run (es : list stimulus) (s : session) :
  refusal s <> None -> wire (run cmd es s) = wire s /\ refusal (run cmd es s) <> None.
Proof.
  revert s; induction es as [|e es IH]; intros s Hr; [auto|].
  rewrite run_cons.
  destruct (step_writes s e) as [(Hw & Hr' & _)|(frame & Hnone & _)]; [|congruence].
  destruct (IH _ (Hr' Hr)) as [Hw' Hr'']. split; [congruence | exact Hr''].
Qed.

(** The frames written, in a session that started with the frames [opening]
    written: pongs, and then at most one close frame, after which the
    connection refuses writes. *)
Definition wire_shape (opening : list outbound) (s : session) : Prop :=
  exists pongs closes,
    wire s = opening ++ pongs ++ closes
    /\ forallb is_pong pongs = true
    /\ (closes = []
        \/ exists frame, closes = [frame] /\ is_close frame = true /\ refusal s <> None)
    /\ (forall since, coordinator s = Closing since ->
          closes = [CloseMessage CloseNormalClosure EmptyString]).

Lemma wire_shape_step (opening : list outbound) (s : session) (e : stimulus) :
  wire_shape opening s -> wire_shape opening (step cmd s e).
Proof.
  intros (pongs & closes & Hw & Hp & Hcl & Hco).
  destruct (step_writes s e)
    as [(Hw' & Hr' & Hc')|(frame & Hnone & Hw' & Hkind)].
  - exists pongs, closes. rewrite Hw'. split; [exact Hw|]. split; [exact Hp|]. split.
    + destruct Hcl as [->|(frame & -> & Hf & Hr)]; [now left|].
      right. exists frame. auto.
    + intros since Hs. apply (Hco since). now apply Hc'.
  - assert (closes = []) as ->
      by (destruct Hcl as [->|(frame' & _ & _ & Hr)]; [reflexivity | congruence]).
    rewrite app_nil_r in Hw.
    destruct Hkind as [(Ha & Hrun & Hk)|(-> & _ & since & Hs)].
    + destruct (answer_kind e frame Ha) as [Hpong|Hclose].
      * exists (pongs ++ [frame]), []. rewrite Hw', Hw, app_nil_r, <- List.app_assoc.
        split; [reflexivity|]. split.
        -- rewrite forallb_app, Hp. cbn. now rewrite Hpong.
        -- split; [now left|]. intros since'. rewrite Hrun. discriminate.
      * exists pongs, [frame]. rewrite Hw', Hw, <- List.app_assoc.
        split; [reflexivity|]. split; [exact Hp|]. split.
        -- right. exists frame. auto.
        -- intros since'. rewrite Hrun. discriminate.
    + exists pongs, [CloseMessage CloseNormalClosure EmptyString].
      rewrite Hw', Hw, <- List.app_assoc.
      split; [reflexivity|]. split; [exact Hp|]. split.
      * right. eexists. split; [reflexivity|]. split; [reflexivity|].
        apply refusal_past_first_select. rewrite Hs. discriminate.
      * auto.
Qed.

Lemma wire_shape_run (opening : list outbound) (es : list stimulus) (s : session) :
  wire_shape opening s -> wire_shape opening (run cmd es s).
Proof.
  revert s; induction es as [|e es IH]; intros s H; [exact H|].
  rewrite run_cons. apply IH. now apply wire_shape_step.
Qed.

Lemma wire_shape_start (s : session) :
  (forall since, coordinator s <> Closing since) -> wire_shape (wire s) s.
Proof.
  intros Hc. exists [], []. rewrite !app_nil_r.
  split; [reflexivity|]. split; [reflexivity|]. split; [now left|].
  intros since Hs. now destruct (Hc since).
Qed.

(** X4: as long as no interrupt is delivered, the control task writes
    nothing and never waits in its second [select]: it stays in its first, or
    has returned because the reader has.  What is written then is written by
    the library, in answer to the peer: the frames added are, in their order,
    answers to stimuli of the run (a pong for a ping, with its data; a close
    frame for a close frame, with its code; a close frame with the code 1002
    for a violation of the protocol), so that nothing is written when the peer
    sends data only. *)
Theorem without_interrupt_only_answers_are_written
    (es : list stimulus) (s : session) :
  coordinator s = Running -> pending s = false -> uninterrupted es = true ->
  (exists answers,
      wire (run cmd es s) = wire s ++ answers /\ sublist answers (omap answer es))
  /\ (omap answer es = [] -> wire (run cmd es s) = wire s)
  /\ (coordinator (run cmd es s) = Running \/ exists t, coordinator (run cmd es s) = Done t).
Proof.
  intros Hc Hp Hes.
  assert ((exists answers,
              wire (run cmd es s) = wire s ++ answers
              /\ sublist answers (omap answer es))
          /\ (coordinator (run cmd es s) = Running
              \/ exists t, coordinator (run cmd es s) = Done t)) as [Hwire Hco].
  { assert ((coordinator s = Running /\ pending s = false)
            \/ exists t, coordinator s = Done t) as Hstate by auto.
    clear Hc Hp. revert s Hstate. induction es as [|e es IH]; intros s Hstate.
    - split; [|destruct Hstate as [[Hc _]|Hd]; auto].
      exists []. rewrite app_nil_r. split; [reflexivity | constructor].
    - rewrite run_cons. cbn [uninterrupted forallb] in Hes.
      apply andb_prop in Hes as [He Hes].
      assert (((coordinator (step cmd s e) = Running /\ pending (step cmd s e) = false)
               \/ exists t, coordinator (step cmd s e) = Done t)
              /\ (wire (step cmd s e) = wire s
                  \/ exists frame, answer e = Some frame
                                   /\ wire (step cmd s e) = wire s ++ [frame]))
        as [Hstate' Hstep].
      { destruct Hstate as [[Hc Hp]|[t Hd]].
        - split.
          + destruct e as [m|err werr| |werr| |d|appData werr|message werr];
              try discriminate He; cbn [step];
              try match goal with
                  | |- context [receive cmd s ?e] =>
                      destruct (receive_tasks cmd s e) as (_ & -> & -> & _); auto
                  end.
            * unfold take_interrupt. rewrite Hc, Hp. auto.
            * unfold take_done. rewrite Hc.
              destruct (reader_done s); cbn; eauto.
            * unfold elapse. rewrite Hc. cbn. auto.
          + destruct (step_writes s e)
              as [(Hw & _)|(frame & _ & Hw & [(Ha & _)|(_ & Hp' & _)])];
              [auto | eauto | congruence].
        - destruct (done_step cmd s e t Hd) as (Hd' & Hw & _). eauto. }
      destruct (IH Hes _ Hstate') as [(answers & Hw & Hsub) Hco].
      split; [|exact Hco]. cbn [omap list_omap].
      destruct Hstep as [Hsame|(frame & Ha & Hadd)].
      + exists answers. split; [congruence|].
        destruct (answer e); [now constructor | exact Hsub].
      + exists (frame :: answers). rewrite Ha.
        split; [|now constructor].
        rewrite Hw, Hadd, <- List.app_assoc. reflexivity. }
  split; [exact Hwire|]. split; [|exact Hco].
  intros Hnone. destruct Hwire as (answers & Hw & Hsub).
  rewrite Hnone in Hsub. apply sublist_nil_r in Hsub. subst answers.
  now rewrite app_nil_r in Hw.
Qed.

End Control.

(** X1: the control task only moves forward, from its first [select] to the
    wait after the close frame to the return; the clock reading at which the
    wait began never changes; and once [Run] has returned the control task
    stays returned, and nothing more is written or announced, while the
    reader, which is not joined, may still print. *)
Theorem control_only_moves_forward (cmd : command) (es : list stimulus) (s : session) :
  rank (coordinator s) <= rank (coordinator (run cmd es s))
  /\ (forall since, coordinator s = Closing since ->
        coordinator (run cmd es s) = Closing since
        \/ exists t, coordinator (run cmd es s) = Done t)
  /\ (forall t, coordinator s = Done t ->
        coordinator (run cmd es s) = Done t
        /\ wire (run cmd es s) = wire s
        /\ notices (stdout (run cmd es s)) = notices (stdout s)
        /\ exit_status (Streaming (run cmd es s)) = Some 0%Z)
  /\ (forall t m, coordinator s = Done t -> reader_done s = false ->
        stdout (step cmd s (Receive m)) =
          stdout s ++ fst (reader_turn cmd (now s) (Frame m))).
Proof.
  destruct (rank_run cmd es s) as [Hle Hcl].
  split; [exact Hle|]. split; [exact Hcl|]. split.
  - intros t Ht. destruct (done_run cmd es s t Ht) as (Hd & Hw & _ & Hn).
    repeat split; auto. unfold exit_status. now rewrite Hd.
  - intros t m _ Hr. unfold step, receive. now rewrite Hr.
Qed.

(** X2: whatever happens in a session, what it writes after the frames of
    its start is pongs, which answer the pings of the peer, and then at most
    one close frame, which is the last frame: once it is written the
    connection refuses every write.  The close frame is the control task's,
    with the code 1000 and no text, whenever the control task waits in its
    second [select]; otherwise it is the library's answer to the peer. *)
Theorem at_most_one_close_frame
    (cmd : command) (es : list stimulus) (t : N) (shown : list output)
    (opening : list outbound) :
  let s := run cmd es (connected t shown opening) in
  exists pongs closes,
    wire s = opening ++ pongs ++ closes
    /\ forallb is_pong pongs = true
    /\ forallb is_close closes = true
    /\ length closes <= 1
    /\ (closes <> [] -> refusal s <> None
                        /\ forall more, wire (run cmd more s) = wire s)
    /\ (forall since, coordinator s = Closing since ->
          closes = [CloseMessage CloseNormalClosure EmptyString]).
Proof.
  cbv zeta.
  destruct (wire_shape_run cmd opening es (connected t shown opening))
    as (pongs & closes & Hw & Hp & Hcl & Hco).
  { apply (wire_shape_start (connected t shown opening)). discriminate. }
  exists pongs, closes. split; [exact Hw|]. split; [exact Hp|].
  destruct Hcl as [->|(frame & -> & Hf & Hr)].
  - repeat split; auto. congruence.
  - cbn. rewrite Hf. repeat split; auto.
    intros more. now apply refused_run.
Qed.

(** X3: the control task announces the end of a session at most once, and in
    one way only: to the notices of the start it adds nothing, or the line of
    the interrupt case, or the line of the case in which the reader has
    returned; nothing while it is in its first [select]. *)
Theorem end_is_announced_once
    (cmd : command) (es : list stimulus) (t : N) (shown : list output)
    (opening : list outbound) :
  let s := run cmd es (connected t shown opening) in
  (notices (stdout s) = notices shown
   \/ notices (stdout s) = notices shown ++ [disconnecting cmd]
   \/ notices (stdout s) = notices shown ++ reader_finished cmd)
  /\ (coordinator s = Running -> notices (stdout s) = notices shown)
  /\ (forall since, coordinator s = Closing since ->
        notices (stdout s) = notices shown ++ [disconnecting cmd]).
Proof.
  cbv zeta.
  assert (announced cmd (notices shown) (run cmd es (connected t shown opening))) as H
    by (apply announced_run; reflexivity).
  unfold announced in H.
  destruct (coordinator (run cmd es (connected t shown opening))) as [|since|t'].
  - repeat split; [now left | auto | discriminate].
  - repeat split; [right; now left | discriminate | auto].
  - split; [|split; discriminate].
    destruct H as [Hn|Hn]; auto.
Qed.

Lemma without_interrupt_only_answers_are_written_witness :
  let es := [Receive (Samples.typed "payment.created" "p_1");
             ReceivePing "hb" None;
             ReceiveFails Samples.normal_close None; TakeInterrupt None; TakeDone] in
  wire (run (Listen false EmptyString) es Samples.fresh) =
    [PongMessage "hb"; CloseMessage CloseNormalClosure EmptyString]
  /\ sublist [PongMessage "hb"; CloseMessage CloseNormalClosure EmptyString]
             (omap answer es)
  /\ wire (run (Listen false EmptyString)
               [Receive (Samples.typed "payment.created" "p_1");
                ReceiveFails Samples.abnormal_close None; TakeDone]
               Samples.fresh) = [].
Proof.
  cbv zeta. split; [reflexivity|]. split; [reflexivity|].
  apply (proj1 (proj2 (without_interrupt_only_answers_are_written
                         (Listen false EmptyString)
                         [Receive (Samples.typed "payment.created" "p_1");
                          ReceiveFails Samples.abnormal_close None; TakeDone]
                         Samples.fresh eq_refl eq_refl eq_refl))).
  reflexivity.
Defined.



Section Reports.

Variable cmd : command.

Lemma read_errors_app (a b : list output) :
  read_errors (a ++ b) = read_errors a ++ read_errors b.
Proof. apply List.filter_app. Qed.

Lemma read_errors_frame (t : N) (m : message) :
  read_errors (fst (reader_turn cmd t (Frame m))) = [].
Proof.
  destruct cmd as [verbose filterType|]; cbn [reader_turn]; [|reflexivity].
  destruct (Unmarshal m); [destruct (passes _ _)|]; reflexivity.
Qed.

Lemma read_errors_failure (t : N) (err : error) :
  length (read_errors (fst (reader_turn cmd t (Failure err)))) <= 1.
Proof.
  destruct cmd as [verbose filterType|]; cbn [reader_turn]; [|cbn; lia].
  destruct (IsUnexpectedCloseError _ _); cbn; lia.
Qed.

(** As long as the reader receives, no error of the receive has been
    reported; there is never more than one report beyond those of the
    start. *)
Definition reported_once (before : nat) (s : session) : Prop :=
  (reader_done s = false -> length (read_errors (stdout s)) = before)
  /\ length (read_errors (stdout s)) <= S before.

Lemma reported_once_step (before : nat) (s : session) (e : stimulus) :
  reported_once before s -> reported_once before (step cmd s e).
Proof.
  intros [Hnone Hone]. unfold reported_once.
  assert (forall e', reported_once before (receive cmd s e')) as Hreceive.
  { intros e'. unfold receive, reported_once.
    destruct (reader_done s) eqn:Hr;
      [cbv iota; split; [intros; congruence | exact Hone]|]. cbv zeta.
    destruct (ReadMessage_tasks s e') as (Hn & Hd & _ & _ & Ho).
    specialize (Hnone eq_refl).
    destruct (snd (ReadMessage s e')) as [[m|err]|].
    - cbn [reader_step reader_done stdout].
      rewrite reader_turn_frame_continues, read_errors_app, length_app,
        read_errors_frame, Ho. cbn. split; intros; lia.
    - cbn [reader_step reader_done stdout].
      rewrite reader_turn_failure_ends, read_errors_app, length_app, Ho, Hn.
      pose proof (read_errors_failure (now s) err).
      split; [cbn; intros; discriminate | lia].
    - rewrite Hd, Ho. split; intros; lia. }
  destruct e as [m|err werr| |werr| |d|appData werr|message werr]; cbn [step];
    try apply Hreceive.
  - destruct (control_step_prints cmd s Sigint eq_refl)
      as (Hd & lines & Ho & Hre & _).
    cbn [step] in Hd, Ho.
    rewrite Hd, Ho, read_errors_app, length_app, Hre, Nat.add_0_r. now split.
  - destruct (control_step_prints cmd s (TakeInterrupt werr) eq_refl)
      as (Hd & lines & Ho & Hre & _).
    cbn [step] in Hd, Ho.
    rewrite Hd, Ho, read_errors_app, length_app, Hre, Nat.add_0_r. now split.
  - destruct (control_step_prints cmd s TakeDone eq_refl)
      as (Hd & lines & Ho & Hre & _).
    cbn [step] in Hd, Ho.
    rewrite Hd, Ho, read_errors_app, length_app, Hre, Nat.add_0_r. now split.
  - destruct (control_step_prints cmd s (Elapse d) eq_refl)
      as (Hd & lines & Ho & Hre & _).
    cbn [step] in Hd, Ho.
    rewrite Hd, Ho, read_errors_app, length_app, Hre, Nat.add_0_r. now split.
Qed.

End Reports.

(** X28: a session reports at most one error of the receive, and none while
    the reader still receives. *)
Theorem receive_error_is_reported_once
    (cmd : command) (es : list stimulus) (t : N) (shown : list output)
    (opening : list outbound) :
  let s := run cmd es (connected t shown opening) in
  length (read_errors (stdout s)) <= S (length (read_errors shown))
  /\ (reader_done s = false ->
      length (read_errors (stdout s)) = length (read_errors shown)).
Proof.
  cbv zeta.
  assert (forall s, reported_once (length (read_errors shown)) s ->
                    reported_once (length (read_errors shown)) (run cmd es s)) as Hrun.
  { induction es as [|e es IH]; intros s H; [exact H|].
    rewrite run_cons. apply IH. now apply reported_once_step. }
  destruct (Hrun (connected t shown opening)) as [Hnone Hone].
  - split; [reflexivity | cbn [stdout connected]; lia].
  - split; [exact Hone | exact Hnone].
Qed.

(** ** The readers *)

(** X5: the reader returns at the first receive that fails: what it prints is
    what it printed for the frames before, then its report of the error, if
    any, and nothing that arrives later is read. *)
Theorem reader_stops_at_the_first_failure
    (cmd : command) (frames : list (N * message)) (t : N) (err : error)
    (rest : list (N * received)) :
  reader cmd (frames_only frames ++ (t, Failure err) :: rest) =
  reader cmd (frames_only frames) ++ fst (reader_turn cmd t (Failure err)).
Proof.
  rewrite reader_app_frames. f_equal. cbn [reader].
  pose proof (reader_turn_failure_ends cmd t err) as Hend.
  destruct (reader_turn cmd t (Failure err)) as [printed continue].
  cbn in Hend |- *. subst continue. apply app_nil_r.
Qed.

(** X6: the reader of [connect] prints every frame it receives, whatever its
    bytes are, once and in the order of arrival. *)
Theorem connect_prints_every_frame (frames : list (N * message)) :
  reader Connect (frames_only frames) =
    map (fun tm => Rendered [Text ("< " +:+ bytes (snd tm) +:+ Strings.LF)]) frames
  /\ length (rendered (reader Connect (frames_only frames))) = length frames.
Proof.
  assert (reader Connect (frames_only frames) =
          map (fun tm => Rendered [Text ("< " +:+ bytes (snd tm) +:+ Strings.LF)]) frames)
    as Heq.
  { induction frames as [|[t m] frames IH]; [reflexivity|].
    cbn [frames_only map reader reader_turn fst snd]. fold (frames_only frames).
    now rewrite IH. }
  split; [exact Heq|]. rewrite Heq. clear Heq.
  induction frames as [|tm frames IH]; [reflexivity|].
  unfold rendered in *. cbn. now rewrite IH.
Qed.

Lemma occurs_in_trans (a b c : string) : occurs_in a b -> occurs_in b c -> occurs_in a c.
Proof.
  intros (p & q & ->) (p' & q' & ->).
  exists (p' +:+ p), (q +:+ q'). now rewrite !append_assoc.
Qed.

Lemma accepted_narrower (f g : string) (m : message) :
  occurs_in f g -> accepted g m = true -> accepted f m = true.
Proof.
  intros Hfg. unfold accepted. destruct (Unmarshal m) as [ev|]; [|discriminate].
  rewrite !passes_spec. intros [->|Hg].
  - left. now apply occurs_in_empty.
  - right. now apply occurs_in_trans with g.
Qed.

(** X7: a filter that contains another prints no more than the other: the
    frames it accepts are accepted by the other, and the lines it prints are
    lines the other prints, in the same order. *)
Theorem narrower_filter_prints_fewer
    (verbose : bool) (f g : string) (frames : list (N * message)) :
  occurs_in f g ->
  (forall m, accepted g m = true -> accepted f m = true)
  /\ sublist (reader (Listen verbose g) (frames_only frames))
             (reader (Listen verbose f) (frames_only frames)).
Proof.
  intros Hfg. split; [intros m; now apply accepted_narrower|].
  induction frames as [|[t m] frames IH]; [constructor|].
  cbn [frames_only map reader fst snd]. fold (frames_only frames).
  rewrite !listen_turn_frame.
  destruct (accepted g m) eqn:Hg.
  - rewrite (accepted_narrower f g m Hfg Hg). cbn. now constructor.
  - destruct (accepted f m); cbn; [now constructor | exact IH].
Qed.

Lemma narrower_filter_prints_fewer_witness :
  sublist
    (reader (Listen false "payment.created")
            (frames_only [(0%N, Samples.typed "payment.created" "p_1");
                          (0%N, Samples.typed "payment.failed" "p_2")]))
    (reader (Listen false "payment")
            (frames_only [(0%N, Samples.typed "payment.created" "p_1");
                          (0%N, Samples.typed "payment.failed" "p_2")])).
Proof.
  apply (narrower_filter_prints_fewer false "payment" "payment.created").
  now exists EmptyString, ".created".
Defined.

(** X8: the flag [--verbose] changes how an event is printed and never
    whether: with it and without it the reader prints as many lines, events
    and error reports alike. *)
Theorem verbosity_does_not_select (filterType : string) (inbox : list (N * received)) :
  length (reader (Listen true filterType) inbox) =
    length (reader (Listen false filterType) inbox)
  /\ length (rendered (reader (Listen true filterType) inbox)) =
       length (rendered (reader (Listen false filterType) inbox)).
Proof.
  induction inbox as [|[t r] inbox [IH1 IH2]]; [split; reflexivity|].
  cbn [reader reader_turn]. destruct r as [m|err].
  - destruct (Unmarshal m) as [ev|]; [|now split].
    destruct (passes filterType (eventType ev)); [|now split].
    unfold rendered in *. cbn. split; congruence.
  - destruct (IsUnexpectedCloseError _ _); split; reflexivity.
Qed.

Lemma digit_plain (n : N) : Strings.continuation (Time.digit n) = false.
Proof.
  unfold Time.digit.
  assert (n mod 10 < 10)%N as Hlt by (apply N.mod_upper_bound; discriminate).
  remember (n mod 10)%N as r eqn:Hr. clear Hr.
  assert (r = 0 \/ r = 1 \/ r = 2 \/ r = 3 \/ r = 4 \/ r = 5 \/ r = 6 \/ r = 7
          \/ r = 8 \/ r = 9)%N as H by lia.
  repeat (destruct H as [->|H]; [reflexivity|]). now rewrite H.
Qed.

Lemma RuneCount_two_digits (n : N) :
  Strings.RuneCountInString (Time.two_digits n) = 2.
Proof.
  unfold Time.two_digits. cbn [Strings.RuneCountInString].
  now rewrite !digit_plain.
Qed.

Lemma RuneCount_Format (t : N) : Strings.RuneCountInString (Time.Format t) = 8.
Proof.
  unfold Time.Format. cbv zeta.
  now rewrite !RuneCount_append, !RuneCount_two_digits.
Qed.

(** X9: in the compact line the identifier begins in a fixed column, the
    forty-fourth, whenever the type of the event has at most thirty runes; a
    longer type pushes it to the right by the runes in excess. *)
Theorem identifier_column (t : N) (ev : event) :
  exists before,
    render false t ev = [Text (before +:+ compact_id ev +:+ Strings.LF)]
    /\ Strings.RuneCountInString before =
         13 + Nat.max 30 (Strings.RuneCountInString (eventType ev))
    /\ (Strings.RuneCountInString (eventType ev) <= 30 ->
        Strings.RuneCountInString before = 43).
Proof.
  exists ("[" +:+ Time.Format t +:+ "] " +:+
          Strings.left_justified 30 (eventType ev) +:+ "  ").
  assert (Strings.RuneCountInString
            ("[" +:+ Time.Format t +:+ "] " +:+
             Strings.left_justified 30 (eventType ev) +:+ "  ") =
          13 + Nat.max 30 (Strings.RuneCountInString (eventType ev))) as Hcount.
  { rewrite !RuneCount_append, RuneCount_Format, left_justified_width.
    change (Strings.RuneCountInString "[") with 1.
    change (Strings.RuneCountInString "] ") with 2.
    change (Strings.RuneCountInString "  ") with 2. lia. }
  split; [|split].
  - unfold render. now rewrite !append_assoc.
  - exact Hcount.
  - intros Hle. rewrite Hcount. lia.
Qed.

(** ** The URL and the zone of [debug listen] *)

Lemma from_append (a b : string) : Strings.from (String.length a) (a +:+ b) = b.
Proof. induction a as [|c a IH]; [reflexivity|]. rewrite append_cons. exact IH. Qed.

Lemma ReplaceFirst_at_front (old new rest : string) :
  Strings.ReplaceFirst (old +:+ rest) old new = new +:+ rest.
Proof.
  assert (String.prefix old (old +:+ rest) = true) as Hp
    by (apply prefix_spec; now exists rest).
  destruct (old +:+ rest) as [|c s] eqn:Hs; cbn [Strings.ReplaceFirst]; rewrite Hp;
    rewrite <- Hs, from_append; reflexivity.
Qed.

Lemma ReplaceFirst_absent (s old new : string) :
  ~ occurs_in old s -> Strings.ReplaceFirst s old new = s.
Proof.
  induction s as [|c s IH]; intros Hno; cbn [Strings.ReplaceFirst].
  - destruct (String.prefix old EmptyString) eqn:Hp; [|reflexivity].
    exfalso. apply Hno, Contains_spec. cbn [Strings.Contains]. now rewrite Hp.
  - destruct (String.prefix old (String c s)) eqn:Hp.
    + exfalso. apply Hno, Contains_spec. cbn [Strings.Contains]. now rewrite Hp.
    + f_equal. apply IH. intros (before & rest & ->).
      apply Hno. now exists (String c before), rest.
Qed.

Lemma append_empty (a : string) : a +:+ EmptyString = a.
Proof. induction a as [|c a IH]; [reflexivity|]. rewrite append_cons. now f_equal. Qed.

(** The query of the URL: the key, and the zone when there is one. *)
Definition listen_query (apiKey zone : string) : string :=
  "?api_key=" +:+ apiKey +:+
  (if String.eqb zone EmptyString then EmptyString else "&zone=" +:+ zone).

Lemma listen_url_query (apiKey zone base : string) :
  (if negb (String.eqb zone EmptyString)
   then (base +:+ "?api_key=" +:+ apiKey) +:+ "&zone=" +:+ zone
   else base +:+ "?api_key=" +:+ apiKey) =
  base +:+ listen_query apiKey zone.
Proof.
  unfold listen_query. destruct (String.eqb zone EmptyString); cbn [negb].
  - now rewrite append_empty.
  - now rewrite !append_assoc.
Qed.

(** X10: an API URL that contains [localhost] anywhere is not used at all:
    the stream is then dialled at the default [ws://localhost:8089], as with
    no API URL, whatever host and port the configuration names. *)
Theorem localhost_url_is_ignored (apiKey zone apiURL : string) :
  occurs_in "localhost" apiURL ->
  listen_url apiKey zone apiURL = listen_url apiKey zone EmptyString
  /\ listen_url apiKey zone apiURL =
       "ws://localhost:8089/v1/events/stream" +:+ listen_query apiKey zone.
Proof.
  intros Hloc. apply Contains_spec in Hloc.
  unfold listen_url. rewrite Hloc, Bool.andb_false_r. cbn [negb andb String.eqb].
  split; [reflexivity|]. apply listen_url_query.
Qed.

Lemma localhost_url_is_ignored_witness :
  listen_url "sk_test" EmptyString "https://localhost:9443" =
  listen_url "sk_test" EmptyString EmptyString.
Proof.
  apply (localhost_url_is_ignored "sk_test" EmptyString "https://localhost:9443").
  now exists "https://", ":9443".
Defined.

(** X11: of an API URL that is used, only the first [https://] is turned into
    [wss://]: a URL that begins with it becomes a [wss://] URL, and a URL
    without it, such as an [http://] one, is dialled with its scheme as it
    is. *)
Theorem scheme_of_the_stream_url (apiKey zone : string) :
  (forall host,
     ~ occurs_in "localhost" ("https://" +:+ host) ->
     listen_url apiKey zone ("https://" +:+ host) =
       "wss://" +:+ host +:+ "/v1/events/stream" +:+ listen_query apiKey zone)
  /\ (forall apiURL,
        apiURL <> EmptyString -> ~ occurs_in "localhost" apiURL ->
        ~ occurs_in "https://" apiURL ->
        listen_url apiKey zone apiURL =
          apiURL +:+ "/v1/events/stream" +:+ listen_query apiKey zone).
Proof.
  split.
  - intros host Hloc.
    assert (Strings.Contains ("https://" +:+ host) "localhost" = false) as Hc.
    { destruct (Strings.Contains ("https://" +:+ host) "localhost") eqn:H; [|reflexivity].
      apply Contains_spec in H. contradiction. }
    unfold listen_url. rewrite Hc, ReplaceFirst_at_front.
    change (String.eqb ("https://" +:+ host) EmptyString) with false.
    cbn [negb andb]. rewrite listen_url_query. now rewrite !append_assoc.
  - intros apiURL Hne Hloc Hs.
    assert (Strings.Contains apiURL "localhost" = false) as Hc.
    { destruct (Strings.Contains apiURL "localhost") eqn:H; [|reflexivity].
      apply Contains_spec in H. contradiction. }
    assert (String.eqb apiURL EmptyString = false) as He.
    { destruct (String.eqb apiURL EmptyString) eqn:H; [|reflexivity].
      apply eqb_empty in H. contradiction. }
    unfold listen_url. rewrite Hc, He, (ReplaceFirst_absent _ _ _ Hs).
    cbn [negb andb]. rewrite listen_url_query. now rewrite !append_assoc.
Qed.

Lemma absent_when_not_contained (sub s : string) :
  Strings.Contains s sub = false -> ~ occurs_in sub s.
Proof. intros H Ho. apply Contains_spec in Ho. congruence. Qed.

Lemma scheme_of_the_stream_url_witness :
  listen_url "sk_live" "eu" "https://api.sapliy.io" =
    "wss://api.sapliy.io/v1/events/stream?api_key=sk_live&zone=eu"
  /\ listen_url "sk_live" "eu" "http://api.sapliy.io" =
       "http://api.sapliy.io/v1/events/stream?api_key=sk_live&zone=eu".
Proof.
  destruct (scheme_of_the_stream_url "sk_live" "eu") as [Hsecure Hplain].
  split.
  - apply (Hsecure "api.sapliy.io"). now apply absent_when_not_contained.
  - apply (Hplain "http://api.sapliy.io");
      [discriminate | now apply absent_when_not_contained | now apply absent_when_not_contained].
Defined.

(** ** truncate and formatTimestamp *)

Lemma length_append (a b : string) :
  String.length (a +:+ b) = String.length a + String.length b.
Proof.
  induction a as [|c a IH]; [reflexivity|].
  rewrite append_cons. cbn [String.length]. now rewrite IH.
Qed.

Lemma length_upto (n : nat) (s : string) :
  String.length (Str.upto n s) = Nat.min n (String.length s).
Proof.
  revert s; induction n as [|n IH]; intros [|c s]; cbn; try reflexivity.
  now rewrite IH.
Qed.

Lemma length_from (n : nat) (s : string) :
  String.length (Strings.from n s) = String.length s - n.
Proof.
  revert s; induction n as [|n IH]; intros [|c s]; cbn; try reflexivity; try lia.
  apply IH.
Qed.

Lemma upto_from (n : nat) (s : string) : Str.upto n s +:+ Strings.from n s = s.
Proof.
  revert s; induction n as [|n IH]; intros [|c s]; cbn [Str.upto Strings.from];
    try reflexivity.
  rewrite append_cons. now rewrite IH.
Qed.

Lemma from_from (a b : nat) (s : string) :
  Strings.from a (Strings.from b s) = Strings.from (b + a) s.
Proof.
  revert s; induction b as [|b IH]; intros s; [reflexivity|].
  destruct s as [|c s]; cbn [Strings.from Nat.add].
  - now destruct a.
  - apply IH.
Qed.

Lemma truncate_cases (s : string) (maxLen : Z) :
  (Z.of_nat (String.length s) <= maxLen /\ truncate s maxLen = Some s)%Z
  \/ (maxLen < Z.of_nat (String.length s) /\ maxLen < 3 /\ truncate s maxLen = None)%Z
  \/ (maxLen < Z.of_nat (String.length s) /\ 3 <= maxLen
      /\ truncate s maxLen = Some (Str.upto (Z.to_nat (maxLen - 3)) s +:+ "..."))%Z.
Proof.
  unfold truncate.
  destruct (Z.leb_spec (Z.of_nat (String.length s)) maxLen); [now left|].
  right. destruct (Z.ltb_spec (maxLen - 3) 0); [left | right]; repeat split; lia.
Qed.

(** X12: with a bound of three or more, [truncate] never panics and what it
    returns has at most as many bytes as the bound: a string within the bound
    is returned as it is, and a longer one comes back with exactly as many
    bytes as the bound, its last three being dots. *)
Theorem truncate_fits (s : string) (maxLen : Z) :
  (3 <= maxLen)%Z ->
  exists r,
    truncate s maxLen = Some r
    /\ (Z.of_nat (String.length r) <= maxLen)%Z
    /\ ((Z.of_nat (String.length s) <= maxLen)%Z -> r = s)
    /\ ((maxLen < Z.of_nat (String.length s))%Z ->
        Z.of_nat (String.length r) = maxLen
        /\ r = Str.upto (Z.to_nat (maxLen - 3)) s +:+ "...").
Proof.
  intros Hmax.
  destruct (truncate_cases s maxLen) as [[Hle ->]|[(Hlt & Hsmall & _)|(Hlt & _ & ->)]].
  - exists s. split; [reflexivity|]. split; [exact Hle|]. split; [reflexivity|]. lia.
  - lia.
  - exists (Str.upto (Z.to_nat (maxLen - 3)) s +:+ "...").
    assert (Z.of_nat (String.length (Str.upto (Z.to_nat (maxLen - 3)) s +:+ "...")) = maxLen)
      as Hlen.
    { rewrite length_append, length_upto. cbn [String.length]. lia. }
    split; [reflexivity|]. split; [lia|]. split; [lia|]. intros _. now split.
Qed.

Lemma truncate_fits_witness :
  exists r, truncate "payment.succeeded" 10 = Some r
            /\ (Z.of_nat (String.length r) <= 10)%Z.
Proof.
  destruct (truncate_fits "payment.succeeded" 10) as (r & Hr & Hlen & _); [lia|].
  now exists r.
Defined.

(** X13: [truncate] panics exactly when the string is longer than the bound
    and the bound is below three, the slice bound being negative then. *)
Theorem truncate_panics_below_three (s : string) (maxLen : Z) :
  truncate s maxLen = None <->
  (maxLen < 3 /\ maxLen < Z.of_nat (String.length s))%Z.
Proof.
  destruct (truncate_cases s maxLen) as [[Hle ->]|[(Hlt & Hsmall & ->)|(Hlt & Hbig & ->)]];
    split; try discriminate; try lia; auto.
Qed.

(** X14: truncating what [truncate] has returned, to the same bound, changes
    nothing. *)
Theorem truncate_twice (s r : string) (maxLen : Z) :
  truncate s maxLen = Some r -> truncate r maxLen = Some r.
Proof.
  intros Hr.
  assert (Z.of_nat (String.length r) <= maxLen)%Z as Hfit.
  { destruct (truncate_cases s maxLen)
      as [[Hle H]|[(Hlt & Hsmall & H)|(Hlt & Hbig & H)]]; rewrite H in Hr.
    - now injection Hr as <-.
    - discriminate.
    - injection Hr as <-. rewrite length_append, length_upto. cbn [String.length]. lia. }
  unfold truncate. destruct (Z.leb_spec (Z.of_nat (String.length r)) maxLen); [reflexivity | lia].
Qed.

Lemma truncate_twice_witness :
  truncate "payment.su..." 13 = Some "payment.su...".
Proof. apply (truncate_twice "payment.succeeded" _ 13). reflexivity. Defined.

Lemma length_two_digits (n : N) : String.length (Time.two_digits n) = 2.
Proof. reflexivity. Qed.

Lemma length_FormatStamp (t : moment) : String.length (FormatStamp t) = 12.
Proof.
  unfold FormatStamp. rewrite !length_append, !length_two_digits.
  now destruct (month t).
Qed.

(** X15: [formatTimestamp] never returns the empty string: for the empty
    timestamp it returns a dash, for one that does not parse the timestamp
    itself, and otherwise twelve bytes of month, day, hour and minute. *)
Theorem formatTimestamp_is_never_empty (Parse : string -> option moment) (ts : string) :
  formatTimestamp Parse ts <> EmptyString
  /\ (ts = EmptyString -> formatTimestamp Parse ts = "—")
  /\ (ts <> EmptyString -> Parse ts = None -> formatTimestamp Parse ts = ts)
  /\ (ts <> EmptyString -> forall t, Parse ts = Some t ->
        formatTimestamp Parse ts = FormatStamp t
        /\ String.length (formatTimestamp Parse ts) = 12).
Proof.
  unfold formatTimestamp.
  destruct (String.eqb ts EmptyString) eqn:He.
  - apply eqb_empty in He. subst ts.
    split; [discriminate|]. split; [reflexivity|]. split; congruence.
  - assert (ts <> EmptyString) as Hne
      by (intros ->; discriminate He).
    split; [|split; [contradiction|split]].
    + destruct (Parse ts) as [t|]; [|exact Hne].
      intros H. pose proof (length_FormatStamp t) as Hl. rewrite H in Hl. discriminate.
    + now intros _ ->.
    + intros _ t ->. split; [reflexivity | apply length_FormatStamp].
Qed.

(** ** webhooks *)

Lemma truncate_thirty (s : string) :
  exists r, truncate s 30 = Some r /\ String.length r <= 30.
Proof.
  destruct (truncate_cases s 30) as [[Hle H]|[(Hlt & Hsmall & H)|(Hlt & Hbig & H)]].
  - exists s. split; [exact H | lia].
  - lia.
  - eexists. split; [exact H|].
    rewrite length_append, length_upto. cbn [String.length]. lia.
Qed.

Lemma webhooks_rows_all (events : list past_event) :
  exists rows, webhooks_rows events = (rows, true) /\ length rows = length events.
Proof.
  induction events as [|evt events (rows & Hrows & Hlen)].
  - now exists [].
  - cbn [webhooks_rows]. unfold webhooks_row.
    destruct (truncate_thirty (Data evt)) as (r & -> & _).
    rewrite Hrows. eexists. split; [reflexivity|]. cbn. now rewrite Hlen.
Qed.

(** X16: [webhooks list] never panics, and when the client returns events it
    prints, after its two opening lines, the header and a rule, one line for
    each event, having called the client once. *)
Theorem webhooks_list_prints_every_event
    (api_key current_zone zoneID : string) (limit : Z)
    (fetch : list past_event + error) :
  ended (webhooksList api_key current_zone zoneID limit fetch) <> Panics
  /\ (forall events,
        api_key <> EmptyString -> webhooks_zone current_zone zoneID <> EmptyString ->
        fetch = inl events -> events <> [] ->
        length (said (webhooksList api_key current_zone zoneID limit fetch)) =
          4 + length events
        /\ called (webhooksList api_key current_zone zoneID limit fetch) =
             [GetPastEvents (webhooks_zone current_zone zoneID) limit 0]
        /\ ended (webhooksList api_key current_zone zoneID limit fetch) = Returns).
Proof.
  unfold webhooksList. split.
  - destruct (String.eqb api_key EmptyString); [discriminate|].
    destruct (String.eqb (webhooks_zone current_zone zoneID) EmptyString); [discriminate|].
    destruct fetch as [[|evt events]|err]; try discriminate.
    destruct (webhooks_rows_all (evt :: events)) as (rows & -> & _). discriminate.
  - intros events Hkey Hzone -> Hsome.
    destruct (String.eqb api_key EmptyString) eqn:Hk;
      [apply eqb_empty in Hk; contradiction|].
    destruct (String.eqb (webhooks_zone current_zone zoneID) EmptyString) eqn:Hz;
      [apply eqb_empty in Hz; contradiction|].
    destruct events as [|evt events]; [contradiction|].
    destruct (webhooks_rows_all (evt :: events)) as (rows & -> & Hlen).
    cbn [said called ended]. rewrite !length_app, Hlen. cbn. auto.
Qed.

Lemma webhooks_list_prints_every_event_witness :
  length (said (webhooksList "sk_test" EmptyString "eu" 20
                  (inl [PastEvent "we_1" "payment.succeeded" (Moment March 5 7 9) "{}"]))) = 5.
Proof.
  apply (proj2 (webhooks_list_prints_every_event "sk_test" EmptyString "eu" 20 _)
           [PastEvent "we_1" "payment.succeeded" (Moment March 5 7 9) "{}"]);
    [discriminate | discriminate | reflexivity | discriminate].
Defined.

Lemma RuneCount_FormatStamp (t : moment) :
  Strings.RuneCountInString (FormatStamp t) = 12.
Proof.
  unfold FormatStamp. rewrite !RuneCount_append, !RuneCount_two_digits.
  now destruct (month t).
Qed.

(** X17: in the table of [webhooks list] the data of an event takes at most
    thirty bytes, and it begins in the column of the header's [DATA], the
    sixty-eighth, whenever the ID has at most 24 runes and the type at most
    25; the timestamp always fits its fifteen. *)
Theorem webhooks_columns (evt : past_event) :
  exists before dataStr,
    webhooks_row evt = Some (before +:+ dataStr +:+ Strings.LF)
    /\ truncate (Data evt) 30 = Some dataStr
    /\ String.length dataStr <= 30
    /\ Strings.RuneCountInString before =
         Nat.max 24 (Strings.RuneCountInString (ID evt))
         + Nat.max 25 (Strings.RuneCountInString (Type' evt)) + 18
    /\ (Strings.RuneCountInString (ID evt) <= 24 ->
        Strings.RuneCountInString (Type' evt) <= 25 ->
        Strings.RuneCountInString before = 67)
    /\ exists above,
         webhooks_header = above +:+ Strings.left_justified 15 "DATA" +:+ Strings.LF
         /\ Strings.RuneCountInString above = 67.
Proof.
  destruct (truncate_thirty (Data evt)) as (dataStr & Hdata & Hlen).
  exists (Strings.left_justified 24 (ID evt) +:+ " " +:+
          Strings.left_justified 25 (Type' evt) +:+ " " +:+
          Strings.left_justified 15 (FormatStamp (CreatedAt evt)) +:+ " "), dataStr.
  assert (Strings.RuneCountInString
            (Strings.left_justified 24 (ID evt) +:+ " " +:+
             Strings.left_justified 25 (Type' evt) +:+ " " +:+
             Strings.left_justified 15 (FormatStamp (CreatedAt evt)) +:+ " ") =
          Nat.max 24 (Strings.RuneCountInString (ID evt))
          + Nat.max 25 (Strings.RuneCountInString (Type' evt)) + 18) as Hcount.
  { rewrite !RuneCount_append, !left_justified_width, RuneCount_FormatStamp.
    change (Strings.RuneCountInString " ") with 1. lia. }
  split; [|split; [exact Hdata|split; [exact Hlen|split; [exact Hcount|split]]]].
  - unfold webhooks_row. rewrite Hdata. now rewrite !append_assoc.
  - intros Hid Hty. rewrite Hcount. lia.
  - exists (Strings.left_justified 24 "EVENT ID" +:+ " " +:+
            Strings.left_justified 25 "TYPE" +:+ " " +:+
            Strings.left_justified 15 "CREATED AT" +:+ " ").
    split; [|reflexivity].
    unfold webhooks_header. now rewrite !append_assoc.
Qed.

(** X18: the two commands that read a zone from a flag and from the
    configuration go opposite ways: for [webhooks list] and [webhooks replay]
    a flag [--zone] that is set decides and the configured zone is not read,
    while for [debug listen] a configured zone decides and the flag is not
    read. *)
Theorem zone_of_flag_and_configuration :
  (forall api_key zone zone' zoneID limit fetch,
     zoneID <> EmptyString ->
     webhooksList api_key zone zoneID limit fetch =
     webhooksList api_key zone' zoneID limit fetch)
  /\ (forall api_key zone zone' zoneID eventID force response mapped replay,
        zoneID <> EmptyString ->
        webhooksReplay api_key zone zoneID eventID force response mapped replay =
        webhooksReplay api_key zone' zoneID eventID force response mapped replay)
  /\ (forall api_key current_zone api_url flag flag' dial t,
        current_zone <> EmptyString ->
        listen_start api_key current_zone api_url flag dial t =
        listen_start api_key current_zone api_url flag' dial t).
Proof.
  assert (forall zone zoneID, zoneID <> EmptyString -> webhooks_zone zone zoneID = zoneID)
    as Hflag.
  { intros zone zoneID Hne. unfold webhooks_zone.
    destruct (String.eqb zoneID EmptyString) eqn:He; [|reflexivity].
    apply eqb_empty in He. contradiction. }
  split; [|split].
  - intros. unfold webhooksList. now rewrite !Hflag.
  - intros. unfold webhooksReplay. now rewrite !Hflag.
  - intros api_key current_zone api_url flag flag' dial t Hne. unfold listen_start.
    destruct (String.eqb current_zone EmptyString) eqn:He; [|reflexivity].
    apply eqb_empty in He. contradiction.
Qed.

Lemma zone_of_flag_and_configuration_witness :
  webhooksList "sk_test" "eu" "us" 20 (inl []) =
  webhooksList "sk_test" "asia" "us" 20 (inl [])
  /\ listen_start "sk_test" "eu" EmptyString "us" None 0 =
     listen_start "sk_test" "eu" EmptyString "asia" None 0.
Proof.
  destruct zone_of_flag_and_configuration as (Hlist & _ & Hlisten).
  split; [apply Hlist | apply Hlisten]; discriminate.
Defined.

Lemma lower_byte_y (c : ascii) :
  Str.lower_byte c = "y"%char <-> c = "y"%char \/ c = "Y"%char.
Proof.
  destruct c as [[] [] [] [] [] [] [] []]; vm_compute;
    (split;
     [ intros H; first [discriminate H | left; reflexivity | right; reflexivity]
     | intros [H|H]; first [discriminate H | reflexivity] ]).
Qed.

Lemma lower_bytes_y (s : string) :
  Str.lower_bytes s = "y" <-> s = "y" \/ s = "Y".
Proof.
  destruct s as [|c [|d s]]; cbn [Str.lower_bytes].
  - split; [discriminate | intros [H|H]; discriminate H].
  - split.
    + intros [= H]. apply lower_byte_y in H as [->| ->]; auto.
    + intros [[= ->]|[= ->]]; reflexivity.
  - split; [discriminate | intros [H|H]; discriminate H].
Qed.

(** X19: [webhooks replay] calls the client only with a key, a zone and
    consent, and then once: with [--force], or when the answer is [y] or [Y];
    any other answer of ASCII bytes, [yes] among them, cancels. *)
Theorem replay_needs_consent
    (api_key current_zone zoneID eventID : string) (force : bool)
    (response : string) (mapped : string -> string) (replay : option error) :
  Str.isASCII response = true ->
  called (webhooksReplay api_key current_zone zoneID eventID force response
                         mapped replay) =
  if negb (String.eqb api_key EmptyString)
     && negb (String.eqb (webhooks_zone current_zone zoneID) EmptyString)
     && (force || String.eqb response "y" || String.eqb response "Y")
  then [ReplayEvent eventID (webhooks_zone current_zone zoneID)]
  else [].
Proof.
  intros Hascii. unfold webhooksReplay, Str.ToLower. rewrite Hascii.
  destruct (String.eqb api_key EmptyString); [reflexivity|].
  destruct (String.eqb (webhooks_zone current_zone zoneID) EmptyString); [reflexivity|].
  cbn [negb andb].
  destruct force; cbn [negb andb orb]; [now destruct replay|].
  destruct (String.eqb (Str.lower_bytes response) "y") eqn:Hy.
  - apply String.eqb_eq, lower_bytes_y in Hy as [->| ->]; now destruct replay.
  - assert (String.eqb response "y" = false /\ String.eqb response "Y" = false) as [-> ->].
    { split; apply String.eqb_neq; intros ->; discriminate Hy. }
    reflexivity.
Qed.

Lemma replay_needs_consent_witness :
  called (webhooksReplay "sk_test" "eu" EmptyString "we_1" false "yes"
                         (fun s => s) None) = []
  /\ called (webhooksReplay "sk_test" "eu" EmptyString "we_1" false "Y"
                            (fun s => s) None) = [ReplayEvent "we_1" "eu"].
Proof.
  split.
  - apply (replay_needs_consent "sk_test" "eu" EmptyString "we_1" false "yes"). reflexivity.
  - apply (replay_needs_consent "sk_test" "eu" EmptyString "we_1" false "Y"). reflexivity.
Defined.

(** X20: without an API key no command calls the client, but they do not end
    alike: [webhooks list], [webhooks replay], [payments create],
    [debug listen] and [debug repl] exit with status 1, and [trigger]
    returns. *)
Theorem without_a_key_nothing_is_called :
  (forall zone zoneID limit fetch,
     called (webhooksList EmptyString zone zoneID limit fetch) = []
     /\ ended (webhooksList EmptyString zone zoneID limit fetch) = Exits 1)
  /\ (forall zone zoneID eventID force response mapped replay,
        called (webhooksReplay EmptyString zone zoneID eventID force response
                               mapped replay) = []
        /\ ended (webhooksReplay EmptyString zone zoneID eventID force response
                                 mapped replay) = Exits 1)
  /\ (forall amount currency zone result,
        called (createPayment EmptyString amount currency zone result) = []
        /\ ended (createPayment EmptyString amount currency zone result) = Exits 1)
  /\ (forall eventType eventData zoneID decoding result,
        called (trigger EmptyString eventType eventData zoneID decoding result) = []
        /\ ended (trigger EmptyString eventType eventData zoneID decoding result) = Returns)
  /\ (forall current_zone api_url zone_flag dial t,
        exists shown,
          listen_start EmptyString current_zone api_url zone_flag dial t = Exited shown 1)
  /\ (forall current_zone api_url lines,
        snd (debugRepl EmptyString current_zone api_url lines) = Exits 1)
  /\ (forall api_key zone zoneID limit fetch eventID force response mapped replay
             amount currency result eventType eventData decoding outcome,
        (called (webhooksList api_key zone zoneID limit fetch) <> [] ->
         api_key <> EmptyString)
        /\ (called (webhooksReplay api_key zone zoneID eventID force response
                                   mapped replay) <> [] -> api_key <> EmptyString)
        /\ (called (createPayment api_key amount currency zone result) <> [] ->
            api_key <> EmptyString)
        /\ (called (trigger api_key eventType eventData zoneID decoding outcome) <> [] ->
            api_key <> EmptyString)).
Proof.
  repeat split; try reflexivity.
  - eexists. reflexivity.
  - intros H ->. now apply H.
  - intros H ->. now apply H.
  - intros H ->. now apply H.
  - intros H ->. now apply H.
Qed.

(** ** TrimSpace *)

Lemma space_first_bound (l : list ascii) : Str.space_first l <= length l.
Proof.
  destruct l as [|c1 [|c2 [|c3 l]]]; cbn; try lia;
    destruct (Str.ascii_space c1); try lia;
    destruct (Str.space2 c1 c2); try lia;
    destruct (Str.space3 c1 c2 c3); lia.
Qed.

Lemma space_last_bound (l : list ascii) : Str.space_last l <= length l.
Proof.
  destruct l as [|c3 [|c2 [|c1 l]]]; cbn; try lia;
    destruct (Str.ascii_space c3); try lia;
    destruct (Str.space2 c2 c3); try lia;
    destruct (Str.space3 c1 c2 c3); lia.
Qed.

Lemma space_first_app (p q : list ascii) (w : nat) :
  Str.space_first p = S w -> Str.space_first (p ++ q) = S w.
Proof.
  destruct p as [|c1 [|c2 [|c3 p]]]; cbn; try discriminate;
    destruct (Str.ascii_space c1); try (intros; assumption); try discriminate;
    destruct (Str.space2 c1 c2); try (intros; assumption); try discriminate.
Qed.

Lemma space_last_app (p q : list ascii) (w : nat) :
  Str.space_last p = S w -> Str.space_last (p ++ q) = S w.
Proof.
  destruct p as [|c3 [|c2 [|c1 p]]]; cbn; try discriminate;
    destruct (Str.ascii_space c3); try (intros; assumption); try discriminate;
    destruct (Str.space2 c2 c3); try (intros; assumption); try discriminate.
Qed.

Lemma ascii_space_low (c : ascii) :
  Str.ascii_space c = true -> (N_of_ascii c < 128)%N.
Proof.
  destruct c as [[] [] [] [] [] [] [] []]; vm_compute; intros H;
    first [discriminate H | reflexivity].
Qed.

Lemma byte_is_eq (c : ascii) (n : N) : Str.byte_is c n = true <-> N_of_ascii c = n.
Proof. apply N.eqb_eq. Qed.

Lemma space2_bytes (c1 c2 : ascii) :
  Str.space2 c1 c2 = true -> (128 <= N_of_ascii c2)%N.
Proof.
  unfold Str.space2.
  repeat (rewrite Bool.orb_true_iff || rewrite Bool.andb_true_iff).
  rewrite !byte_is_eq. lia.
Qed.

Lemma space3_bytes (c1 c2 c3 : ascii) :
  Str.space3 c1 c2 c3 = true ->
  (N_of_ascii c2 <> 194 /\ 128 <= N_of_ascii c3)%N.
Proof.
  unfold Str.space3.
  repeat (rewrite Bool.orb_true_iff || rewrite Bool.andb_true_iff).
  rewrite !byte_is_eq, !N.leb_le. lia.
Qed.

Lemma not_ascii_space (c : ascii) : (128 <= N_of_ascii c)%N -> Str.ascii_space c = false.
Proof.
  intros H. destruct (Str.ascii_space c) eqn:Hs; [|reflexivity].
  apply ascii_space_low in Hs. lia.
Qed.

(** Bytes that are one white-space rune from end to end are one read from
    the end as well. *)
Lemma whole_rune (l : list ascii) :
  l <> [] -> Str.space_first l = length l -> Str.space_last (rev l) = length l.
Proof.
  destruct l as [|c1 [|c2 [|c3 [|c4 l]]]]; [congruence| | | |]; intros _; cbn.
  - now destruct (Str.ascii_space c1).
  - destruct (Str.ascii_space c1); [discriminate|].
    destruct (Str.space2 c1 c2) eqn:H2; [|discriminate].
    now rewrite (not_ascii_space c2 (space2_bytes _ _ H2)).
  - destruct (Str.ascii_space c1); [discriminate|].
    destruct (Str.space2 c1 c2); [discriminate|].
    destruct (Str.space3 c1 c2 c3) eqn:H3; [|discriminate].
    destruct (space3_bytes _ _ _ H3) as [Hc2 Hc3].
    rewrite (not_ascii_space c3 Hc3).
    assert (Str.space2 c2 c3 = false) as ->.
    { unfold Str.space2. destruct (Str.byte_is c2 194) eqn:Hb; [|reflexivity].
      apply byte_is_eq in Hb. contradiction. }
    reflexivity.
  - destruct (Str.ascii_space c1); [discriminate|].
    destruct (Str.space2 c1 c2); [discriminate|].
    destruct (Str.space3 c1 c2 c3); discriminate.
Qed.

Section Strip.

Variable width : list ascii -> nat.
Hypothesis width_bound : forall l, width l <= length l.

Lemma strip_fixed (fuel : nat) (l : list ascii) :
  width l = 0 -> Str.strip width fuel l = l.
Proof. intros H. destruct fuel; cbn [Str.strip]; [reflexivity | now rewrite H]. Qed.

Lemma strip_done (fuel : nat) (l : list ascii) :
  length l <= fuel -> width (Str.strip width fuel l) = 0.
Proof.
  revert l; induction fuel as [|fuel IH]; intros l Hlen; cbn [Str.strip].
  - pose proof (width_bound l). lia.
  - destruct (width l) as [|w] eqn:Hw; [exact Hw|].
    apply IH. rewrite length_drop. lia.
Qed.

Lemma strip_suffix (fuel : nat) (l : list ascii) :
  exists p, l = p ++ Str.strip width fuel l.
Proof.
  revert l; induction fuel as [|fuel IH]; intros l; cbn [Str.strip].
  - now exists [].
  - destruct (width l) as [|w] eqn:Hw; [now exists []|].
    destruct (IH (drop (S w) l)) as [p Hp].
    exists (take (S w) l ++ p). rewrite <- List.app_assoc, <- Hp.
    now rewrite take_drop.
Qed.

End Strip.

Lemma trimmed_front (l : list ascii) : Str.space_first (Str.trim_left l) = 0.
Proof. apply strip_done; [apply space_first_bound | reflexivity]. Qed.

Lemma trimmed_end (l : list ascii) : Str.space_last (rev (Str.trim_right l)) = 0.
Proof.
  unfold Str.trim_right. rewrite rev_involutive.
  apply strip_done; [apply space_last_bound | now rewrite length_rev].
Qed.

Lemma trim_right_prefix (l : list ascii) : exists q, l = Str.trim_right l ++ q.
Proof.
  unfold Str.trim_right.
  destruct (strip_suffix Str.space_last (length l) (rev l)) as [p Hp].
  exists (rev p). rewrite <- rev_app_distr, <- Hp. now rewrite rev_involutive.
Qed.

Lemma trim_right_fixed (l : list ascii) :
  Str.space_last (rev l) = 0 -> Str.trim_right l = l.
Proof.
  intros H. unfold Str.trim_right. rewrite strip_fixed by exact H.
  apply rev_involutive.
Qed.

Lemma trim_left_fixed (l : list ascii) : Str.space_first l = 0 -> Str.trim_left l = l.
Proof. apply strip_fixed. Qed.

(** What [TrimSpace] leaves begins with no white space and ends with none. *)
Lemma trimmed_both (l : list ascii) :
  Str.space_first (Str.trim_right (Str.trim_left l)) = 0
  /\ Str.space_last (rev (Str.trim_right (Str.trim_left l))) = 0.
Proof.
  split; [|apply trimmed_end].
  destruct (trim_right_prefix (Str.trim_left l)) as [q Hq].
  destruct (Str.space_first (Str.trim_right (Str.trim_left l))) as [|w] eqn:Hw;
    [reflexivity|].
  pose proof (space_first_app _ q _ Hw) as H.
  rewrite <- Hq, trimmed_front in H. discriminate.
Qed.

Lemma TrimSpace_twice (s : string) : Str.TrimSpace (Str.TrimSpace s) = Str.TrimSpace s.
Proof.
  unfold Str.TrimSpace. rewrite String.list_ascii_of_string_of_list_ascii.
  destruct (trimmed_both (String.list_ascii_of_string s)) as [Hfront Hend].
  now rewrite (trim_left_fixed _ Hfront), (trim_right_fixed _ Hend).
Qed.

Lemma strip_all (fuel : nat) (l : list ascii) :
  length l <= fuel -> Str.strip Str.space_first fuel l = [] ->
  l = [] \/ Str.space_last (rev l) <> 0.
Proof.
  revert l; induction fuel as [|fuel IH]; intros l Hlen; cbn [Str.strip].
  - intros ->. now left.
  - destruct (Str.space_first l) as [|w] eqn:Hw; [now left|].
    intros Hnil. right.
    pose proof (space_first_bound l) as Hb.
    destruct (IH (drop (S w) l)) as [Hd|Hd]; [rewrite length_drop; lia | exact Hnil | |].
    + assert (Str.space_first l = length l) as Hall.
      { apply (f_equal length) in Hd. rewrite length_drop in Hd. cbn in Hd. lia. }
      rewrite (whole_rune l); [lia | | exact Hall].
      intros ->. discriminate Hw.
    + rewrite <- (take_drop (S w) l), rev_app_distr.
      destruct (Str.space_last (rev (drop (S w) l))) as [|k] eqn:Hk; [contradiction|].
      now rewrite (space_last_app _ _ _ Hk).
Qed.

(** Bytes of which [TrimSpace] leaves nothing are none, or end in white
    space. *)
Lemma trim_nothing (l : list ascii) :
  Str.trim_right (Str.trim_left l) = [] -> l = [] \/ Str.space_last (rev l) <> 0.
Proof.
  intros H.
  destruct (Str.space_last (rev (Str.trim_left l))) as [|k] eqn:Hk.
  - rewrite (trim_right_fixed _ Hk) in H.
    apply (strip_all (length l) l); [lia | exact H].
  - right.
    destruct (strip_suffix Str.space_first (length l) l) as [p Hp].
    fold (Str.trim_left l) in Hp. rewrite Hp at 1. rewrite rev_app_distr.
    now rewrite (space_last_app _ _ _ Hk).
Qed.

(** ** debug repl *)

Lemma list_of_append (a b : string) :
  String.list_ascii_of_string (a +:+ b) =
  String.list_ascii_of_string a ++ String.list_ascii_of_string b.
Proof.
  induction a as [|c a IH]; [reflexivity|].
  rewrite append_cons. cbn. now rewrite IH.
Qed.

Lemma string_of_nothing (l : list ascii) :
  String.string_of_list_ascii l = EmptyString -> l = [].
Proof. now destruct l. Qed.

Lemma trimmed_input (text : string) :
  Str.space_last (rev (String.list_ascii_of_string (Str.TrimSpace text))) = 0.
Proof.
  unfold Str.TrimSpace. rewrite String.list_ascii_of_string_of_list_ascii.
  apply trimmed_both.
Qed.

(** Trimmed input that begins with a word and a blank has more after the
    blank, and trimming that leaves something. *)
Lemma argument_not_blank (text word rest : string) :
  Str.TrimSpace text = word +:+ " " +:+ rest ->
  Str.TrimSpace rest <> EmptyString.
Proof.
  intros Hin Hnil.
  pose proof (trimmed_input text) as Hend.
  rewrite Hin, !list_of_append, !rev_app_distr, <- List.app_assoc in Hend.
  apply string_of_nothing, trim_nothing in Hnil as [Hr|Hr].
  - rewrite Hr in Hend. cbn in Hend. discriminate Hend.
  - destruct (Str.space_last (rev (String.list_ascii_of_string rest))) as [|k] eqn:Hk;
      [contradiction|].
    rewrite (space_last_app _ _ _ Hk) in Hend. discriminate.
Qed.

Lemma SplitBlank_spec (s : string) :
  ~ occurs_in " " (fst (Str.SplitBlank s))
  /\ match snd (Str.SplitBlank s) with
     | Some tail => s = fst (Str.SplitBlank s) +:+ " " +:+ tail
     | None => s = fst (Str.SplitBlank s)
     end.
Proof.
  induction s as [|c s [IHno IHeq]]; cbn [Str.SplitBlank].
  - split; [|reflexivity]. intros H. apply occurs_in_empty in H. discriminate.
  - destruct (Ascii.eqb_spec c " ") as [->|Hc]; cbn [fst snd].
    + split; [|reflexivity]. intros H. apply occurs_in_empty in H. discriminate.
    + destruct (Str.SplitBlank s) as [head tail]. cbn [fst snd] in *. split.
      * intros ([|x before] & rest & H).
        -- rewrite append_nil, append_cons in H. congruence.
        -- rewrite append_cons in H. injection H as _ H.
           apply IHno. now exists before, rest.
      * destruct tail as [tail|]; rewrite append_cons || idtac; now f_equal.
Qed.

Section Repl.

Variables apiKey api_url : string.

Lemma repl_line_leaves (zone text : string) :
  Str.TrimSpace text = "exit" \/ Str.TrimSpace text = "quit" ->
  repl_line apiKey api_url zone text = Leaves [line "👋 Goodbye!"].
Proof. unfold repl_line. now intros [-> | ->]. Qed.

Lemma repl_line_sound (zone text : string) :
  8 <= String.length apiKey -> repl_line apiKey api_url zone text <> Crashes.
Proof.
  intros Hlen.
  assert ((String.length apiKey <? 8) = false) as Hlt by (apply Nat.ltb_ge; lia).
  unfold repl_line. rewrite Hlt.
  repeat match goal with
         | |- context [if ?b then _ else _] => destruct b
         | |- context [let '(_, _) := ?p in _] => destruct p
         end; discriminate.
Qed.

Lemma repl_line_zone (zone text : string) (shown : list (list chunk)) (zone' : string) :
  repl_line apiKey api_url zone text = Goes shown zone' ->
  (Str.HasPrefix (Str.TrimSpace text) "zone " = false /\ zone' = zone)
  \/ (exists rest,
        Str.TrimSpace text = "zone " +:+ rest
        /\ zone' = Str.TrimSpace rest
        /\ shown = [line ("✅ Switched to zone: " +:+ zone')]).
Proof.
  unfold repl_line.
  destruct (Str.HasPrefix (Str.TrimSpace text) "zone ") eqn:Hz.
  - apply prefix_spec in Hz as [rest Hin]. rewrite Hin.
    change (String.eqb ("zone " +:+ rest) EmptyString) with false.
    change (String.eqb ("zone " +:+ rest) "exit") with false.
    change (String.eqb ("zone " +:+ rest) "quit") with false.
    change (String.eqb ("zone " +:+ rest) "help") with false.
    change (String.eqb ("zone " +:+ rest) "status") with false.
    change (Str.HasPrefix ("zone " +:+ rest) "emit ") with false.
    cbn [orb].
    change (Strings.from 5 ("zone " +:+ rest)) with rest.
    intros [= <- <-]. right. now exists rest.
  - intros H. left. split; [reflexivity|].
    repeat match type of H with
           | context [if ?b then _ else _] => destruct b
           | context [let '(_, _) := ?p in _] => destruct p
           end; now inversion H.
Qed.

(** X21: [exit] and [quit], with white space around them or not, end the
    loop of [debug repl]: no line that follows is read, and nothing is printed
    for it. *)
Theorem repl_ends_at_exit (zone : string) (before : list string) (text : string)
    (rest : list string) :
  Str.TrimSpace text = "exit" \/ Str.TrimSpace text = "quit" ->
  repl_loop apiKey api_url zone (before ++ text :: rest) =
  repl_loop apiKey api_url zone (before ++ [text]).
Proof.
  intros Hexit. revert zone; induction before as [|b before IH]; intros zone.
  - cbn [app repl_loop]. now rewrite (repl_line_leaves zone text Hexit).
  - cbn [app repl_loop].
    destruct (repl_line apiKey api_url zone b) as [shown zone'| |]; try reflexivity.
    now rewrite IH.
Qed.

Lemma repl_loop_sound (zone : string) (lines : list string) :
  8 <= String.length apiKey -> snd (repl_loop apiKey api_url zone lines) <> Panics.
Proof.
  intros Hlen. revert zone; induction lines as [|text lines IH]; intros zone.
  - discriminate.
  - cbn [repl_loop]. pose proof (repl_line_sound zone text Hlen) as Hline.
    destruct (repl_line apiKey api_url zone text) as [shown zone'| |];
      [|discriminate|contradiction].
    specialize (IH zone').
    destruct (repl_loop apiKey api_url zone' lines) as [[more z] e]. exact IH.
Qed.

(** X24: only the command [zone] changes the zone of [debug repl]: after any
    lines of which none is one, the zone is the one it was. *)
Theorem only_zone_changes_the_zone (zone : string) (lines : list string) :
  forallb (fun text => negb (Str.HasPrefix (Str.TrimSpace text) "zone ")) lines = true ->
  snd (fst (repl_loop apiKey api_url zone lines)) = zone.
Proof.
  revert zone; induction lines as [|text lines IH]; intros zone Hno; [reflexivity|].
  cbn [forallb] in Hno. apply andb_prop in Hno as [Hthis Hno].
  cbn [repl_loop].
  destruct (repl_line apiKey api_url zone text) as [shown zone'| |] eqn:Hline;
    try reflexivity.
  apply repl_line_zone in Hline as [[_ ->]|(rest & Hin & _)].
  - specialize (IH zone Hno).
    destruct (repl_loop apiKey api_url zone lines) as [[more z] e]. exact IH.
  - assert (Str.HasPrefix (Str.TrimSpace text) "zone " = true) as Hp
      by (apply prefix_spec; now exists rest).
    rewrite Hp in Hthis. discriminate.
Qed.

End Repl.

Lemma repl_ends_at_exit_witness :
  repl_loop "sk_test_0001" EmptyString "eu" (["zone us"] ++ "  quit " :: ["status"]) =
  repl_loop "sk_test_0001" EmptyString "eu" (["zone us"] ++ ["  quit "]).
Proof.
  apply (repl_ends_at_exit "sk_test_0001" EmptyString "eu" ["zone us"] "  quit " ["status"]).
  right. reflexivity.
Defined.

(** X22: [debug repl] panics on [status] when the API key has fewer than
    eight bytes, the key being sliced at eight, and it panics on nothing else:
    with a key of eight bytes or more no input makes it panic. *)
Theorem repl_panics_on_status_with_a_short_key (apiKey api_url : string) :
  (8 <= String.length apiKey ->
   forall zone lines, snd (repl_loop apiKey api_url zone lines) <> Panics)
  /\ (String.length apiKey < 8 ->
      forall zone text rest,
        Str.TrimSpace text = "status" ->
        repl_loop apiKey api_url zone (text :: rest) = ([prompt], zone, Panics)).
Proof.
  split.
  - intros Hlen zone lines. now apply repl_loop_sound.
  - intros Hlen zone text rest Hin. cbn [repl_loop]. unfold repl_line. rewrite Hin.
    cbn [String.eqb Ascii.eqb Bool.eqb orb].
    apply Nat.ltb_lt in Hlen. now rewrite Hlen.
Qed.

Lemma repl_panics_on_status_with_a_short_key_witness :
  snd (repl_loop "sk_test_0001" EmptyString "eu" ["status"; "zone us"; "status"]) <> Panics
  /\ repl_loop "sk_1" EmptyString "eu" [" status"; "exit"] = ([prompt], "eu", Panics).
Proof.
  destruct (repl_panics_on_status_with_a_short_key "sk_test_0001" EmptyString)
    as [Hlong _].
  destruct (repl_panics_on_status_with_a_short_key "sk_1" EmptyString)
    as [_ Hshort].
  split.
  - apply Hlong. vm_compute. lia.
  - apply Hshort; [vm_compute; lia | reflexivity].
Defined.

(** X23: [status] prints the first eight bytes of the API key and the last
    four.  A key of eight to twelve bytes is thereby printed whole, the two
    parts meeting or overlapping; of a longer key all but the twelve bytes
    shown stay hidden. *)
Theorem status_shows_a_short_key_whole (apiKey api_url zone text : string) :
  8 <= String.length apiKey ->
  Str.TrimSpace text = "status" ->
  repl_line apiKey api_url zone text =
    Goes [line ("API Key: " +:+ Str.upto 8 apiKey +:+ "..." +:+
                Strings.from (String.length apiKey - 4) apiKey);
          line ("Zone: " +:+ zone);
          line ("API URL: " +:+ api_url)] zone
  /\ (String.length apiKey <= 12 ->
      apiKey = Str.upto 8 apiKey +:+
               Strings.from (12 - String.length apiKey)
                            (Strings.from (String.length apiKey - 4) apiKey))
  /\ (12 <= String.length apiKey ->
      exists hidden,
        apiKey = Str.upto 8 apiKey +:+ hidden +:+
                 Strings.from (String.length apiKey - 4) apiKey
        /\ String.length hidden = String.length apiKey - 12).
Proof.
  intros Hlen Hin. split; [|split].
  - unfold repl_line. rewrite Hin. cbn [String.eqb Ascii.eqb Bool.eqb orb].
    assert ((String.length apiKey <? 8) = false) as -> by (apply Nat.ltb_ge; lia).
    reflexivity.
  - intros Hshort. rewrite from_from.
    replace (String.length apiKey - 4 + (12 - String.length apiKey)) with 8 by lia.
    now rewrite upto_from.
  - intros Hlong.
    exists (Str.upto (String.length apiKey - 12) (Strings.from 8 apiKey)). split.
    + replace (String.length apiKey - 4) with (8 + (String.length apiKey - 12)) by lia.
      rewrite <- from_from, upto_from. now rewrite upto_from.
    + rewrite length_upto, length_from. lia.
Qed.

Lemma status_shows_a_short_key_whole_witness :
  "sk_test_01" = Str.upto 8 "sk_test_01" +:+
                 Strings.from (12 - 10) (Strings.from (10 - 4) "sk_test_01").
Proof.
  apply (proj1 (proj2 (status_shows_a_short_key_whole "sk_test_01" EmptyString "eu"
                         "status" ltac:(vm_compute; lia) eq_refl))).
  vm_compute. lia.
Defined.

Lemma only_zone_changes_the_zone_witness :
  snd (fst (repl_loop "sk_test_0001" EmptyString "eu"
              ["emit payment.created"; "zone"; "status"; "zones us"])) = "eu".
Proof.
  apply (only_zone_changes_the_zone "sk_test_0001" EmptyString "eu"). reflexivity.
Defined.

(** X25: the zone that [debug repl] switches to is never empty and never has
    white space around it: a line changes the zone only to the trimmed,
    non-empty argument of a [zone] command, which is the zone it reports. *)
Theorem switched_zone_is_never_blank
    (apiKey api_url zone text : string) (shown : list (list chunk)) (zone' : string) :
  repl_line apiKey api_url zone text = Goes shown zone' ->
  zone' = zone
  \/ (zone' <> EmptyString
      /\ Str.TrimSpace zone' = zone'
      /\ shown = [line ("✅ Switched to zone: " +:+ zone')]).
Proof.
  intros Hline.
  apply repl_line_zone in Hline as [[_ ->]|(rest & Hin & -> & ->)]; [now left|].
  right. split; [|split; [apply TrimSpace_twice | reflexivity]].
  apply (argument_not_blank text "zone" rest).
  now rewrite Hin.
Qed.

Lemma switched_zone_is_never_blank_witness :
  "eu-west" = "eu"
  \/ ("eu-west" <> EmptyString
      /\ Str.TrimSpace "eu-west" = "eu-west"
      /\ [line ("✅ Switched to zone: " +:+ "eu-west")] =
         [line ("✅ Switched to zone: " +:+ "eu-west")]).
Proof.
  apply (switched_zone_is_never_blank "sk_test_0001" EmptyString "eu" " zone   eu-west  ").
  reflexivity.
Defined.

(** X26: [emit] splits what follows it at the first blank: the type printed
    has no blank, and the type, a blank and the data printed make up the
    argument again; without a blank the argument is the type and the data is
    [{}]. *)
Theorem emit_splits_at_the_first_blank (apiKey api_url zone text rest : string) :
  Str.TrimSpace text = "emit " +:+ rest ->
  exists eventType data,
    repl_line apiKey api_url zone text =
      Goes [line ("➡️  Emitting " +:+ eventType +:+ ": " +:+ data)] zone
    /\ ~ occurs_in " " eventType
    /\ (rest = eventType +:+ " " +:+ data
        \/ (rest = eventType /\ data = "{}")).
Proof.
  intros Hin.
  destruct (SplitBlank_spec rest) as [Hno Heq].
  exists (fst (Str.SplitBlank rest)), (default "{}" (snd (Str.SplitBlank rest))).
  split; [|split; [exact Hno|]].
  - unfold repl_line. rewrite Hin.
    change (String.eqb ("emit " +:+ rest) EmptyString) with false.
    change (String.eqb ("emit " +:+ rest) "exit") with false.
    change (String.eqb ("emit " +:+ rest) "quit") with false.
    change (String.eqb ("emit " +:+ rest) "help") with false.
    change (String.eqb ("emit " +:+ rest) "status") with false.
    cbn [orb].
    assert (Str.HasPrefix ("emit " +:+ rest) "emit " = true) as ->
      by (apply prefix_spec; now exists rest).
    change (Strings.from 5 ("emit " +:+ rest)) with rest.
    now destruct (Str.SplitBlank rest).
  - destruct (snd (Str.SplitBlank rest)) as [tail|]; cbn [default]; auto.
Qed.

Lemma emit_splits_at_the_first_blank_witness :
  exists eventType data,
    repl_line "sk_test_0001" EmptyString "eu" "emit payment.created {} now" =
      Goes [line ("➡️  Emitting " +:+ eventType +:+ ": " +:+ data)] "eu"
    /\ ~ occurs_in " " eventType
    /\ ("payment.created {} now" = eventType +:+ " " +:+ data
        \/ ("payment.created {} now" = eventType /\ data = "{}")).
Proof.
  apply (emit_splits_at_the_first_blank "sk_test_0001" EmptyString "eu"
           "emit payment.created {} now" "payment.created {} now").
  reflexivity.
Defined.
